(** * LLMQuestionAnswerer: a shallow embedding of the RAG notebook class

    The class [LLMQuestionAnswerer] of [rag_usage_example.ipynb] is embedded
    method by method.  The language model, its tokenizer, the sentence
    splitter and the JSON codec are collaborators: they are gathered in one
    record, and every call that reaches the model is logged in a trace, so
    that a collaborator may answer differently from one call to the next. *)

From Stdlib Require Import List String Ascii ZArith QArith Bool Lia.
From Stdlib Require Import Permutation Sorted Orders Mergesort.
Import ListNotations.

Local Open Scope string_scope.
Local Open Scope Z_scope.
Local Open Scope list_scope.

(** ** Python values *)

(** Exceptions: every class below derives from [Exception]; [str(e)] is the
    message. *)
Inductive exn_class : Type :=
| ValueError
| RuntimeError
| IndexError
| TypeError
| JSONDecodeError
| OtherException.

Record exn : Type := mkExn { exn_kind : exn_class; exn_str : string }.

Inductive result (A : Type) : Type :=
| Ok (a : A)
| Raise (e : exn).

Arguments Ok {A} a.
Arguments Raise {A} e.

Definition exn_class_eqb (a b : exn_class) : bool :=
  match a, b with
  | ValueError, ValueError
  | RuntimeError, RuntimeError
  | IndexError, IndexError
  | TypeError, TypeError
  | JSONDecodeError, JSONDecodeError
  | OtherException, OtherException => true
  | _, _ => false
  end.

(** What [json.loads] can produce: a dict, a list, a str, a number, a bool
    or None.  A Python [str] is [JStr]. *)
#[local] Set Warnings "-register-all".
Inductive json : Type :=
| JNull
| JBool (b : bool)
| JNum (q : Q)
| JStr (s : string)
| JList (l : list json)
| JObj (fields : list (string * json)).

(** A float is a rational; one row of a 2-D tensor is a vector. *)
Definition vec : Type := list Q.
Definition tensor : Type := list vec.

(** [input_ids] of a batch: one row of token ids per text. *)
Definition token_ids : Type := list (list Z).

(** [Union[str, List[str]]], the argument of [get_embedding]. *)
Inductive text_arg : Type :=
| TStr (s : string)
| TList (l : list string).

(** [Any], as the values of [output_structure] are typed: a value of JSON
    shape, or any other object (a type such as [str], a set, ...), which
    [json.dumps] refuses with a TypeError; lists and dicts may hold both. *)
Inductive pyvalue : Type :=
| PJson (j : json)
| PObject (repr : string)
| PList (l : list pyvalue)
| PDict (fields : list (string * pyvalue)).

Definition nl : string := String (ascii_of_nat 10) EmptyString.

(** ** Collaborator calls and their trace *)

Inductive call : Type :=
| LoadTokenizer (name : string)
| LoadSeq2Seq (name : string)
| LoadCausal (name : string)
| TokenizerCall (texts : list string) (padding : bool)
| Generate (inputs : token_ids) (max_length : Z)
| Decode (ids : list Z)
| Encoder (inputs : token_ids)
| Forward (inputs : token_ids)
| PrintAdded (n_chunks n_documents total : nat).

Definition trace : Type := list call.

Record Collaborators : Type := {
  (* nltk and the tokenizer's encode, used by the chunker *)
  sent_tokenize : string -> list string;
  tokenizer_encode : string -> list Z;
  (* from_pretrained, followed by model.to(device) for the models *)
  tokenizer_from_pretrained : trace -> string -> result unit;
  seq2seq_from_pretrained : trace -> string -> result unit;
  causal_from_pretrained : trace -> string -> result unit;
  (* model.config *)
  config_max_position_embeddings : option Z;
  config_hidden_size : Z;
  (* tokenizer(text, return_tensors="pt", truncation=True, max_length=512)
     .to(device), with or without padding *)
  tokenizer_call : trace -> list string -> bool -> result token_ids;
  model_generate : trace -> token_ids -> Z -> result (list (list Z));
  tokenizer_decode : trace -> list Z -> result string;
  (* last_hidden_state: per text, one vector per token *)
  model_encoder : trace -> token_ids -> result (list (list vec));
  model_forward : trace -> token_ids -> result (list (list vec));
  (* floating-point kernels *)
  mean : list vec -> vec;
  cosine : vec -> vec -> Q;
  (* json *)
  json_dumps_indent2 : pyvalue -> result string;
  json_loads : string -> result json
}.

(** ** The object and the monad of its methods *)

Record LLMQuestionAnswerer : Type := mkSelf {
  model_name : string;
  model_type : string;
  quest_ans_tokens_margin : Z;
  rag_data : list string;
  rag_embeddings : option tensor;
  embedding_size : Z;
  rag_k_nearest_neighbors : Z
}.

Record state : Type := mkState {
  self : LLMQuestionAnswerer;
  calls : trace
}.

(** A method runs on the state and leaves a state behind, also when it
    raises: what was mutated before the exception stays mutated. *)
Definition M (A : Type) : Type := state -> result A * state.

Definition ret {A} (a : A) : M A := fun st => (Ok a, st).

Definition raise {A} (e : exn) : M A := fun st => (Raise e, st).

Definition bind {A B} (m : M A) (k : A -> M B) : M B :=
  fun st =>
    match m st with
    | (Ok a, st') => k a st'
    | (Raise e, st') => (Raise e, st')
    end.

Notation "x <- m ;; k" := (bind m (fun x => k))
  (at level 61, m at next level, right associativity).
Notation "m ;;; k" := (bind m (fun _ => k))
  (at level 61, right associativity).

(** [try: m except Exception as e: h e] *)
Definition try_except {A} (m : M A) (h : exn -> M A) : M A :=
  fun st =>
    match m st with
    | (Ok a, st') => (Ok a, st')
    | (Raise e, st') => h e st'
    end.

(** [try: m except cls: h] *)
Definition try_except_class {A} (cls : exn_class) (m : M A) (h : M A) : M A :=
  fun st =>
    match m st with
    | (Ok a, st') => (Ok a, st')
    | (Raise e, st') =>
        if exn_class_eqb (exn_kind e) cls then h st' else (Raise e, st')
    end.

Definition lift {A} (r : result A) : M A := fun st => (r, st).

(** A call to the model side: answered from the trace so far, then logged. *)
Definition invoke {A} (c : call) (f : trace -> result A) : M A :=
  fun st => (f (calls st), mkState (self st) (calls st ++ [c])).

Definition get_self : M LLMQuestionAnswerer := fun st => (Ok (self st), st).

Definition set_rag_data (d : list string) : M unit :=
  fun st =>
    let s := self st in
    (Ok tt,
     mkState (mkSelf (model_name s) (model_type s) (quest_ans_tokens_margin s)
                d (rag_embeddings s) (embedding_size s)
                (rag_k_nearest_neighbors s))
             (calls st)).

Definition set_rag_embeddings (e : option tensor) : M unit :=
  fun st =>
    let s := self st in
    (Ok tt,
     mkState (mkSelf (model_name s) (model_type s) (quest_ans_tokens_margin s)
                (rag_data s) e (embedding_size s)
                (rag_k_nearest_neighbors s))
             (calls st)).

Fixpoint mapM {A B} (f : A -> M B) (l : list A) : M (list B) :=
  match l with
  | [] => ret []
  | x :: xs => y <- f x ;; ys <- mapM f xs ;; ret (y :: ys)
  end.

Definition nonempty {A} (l : list A) : bool :=
  match l with [] => false | _ :: _ => true end.

Section Methods.

Variable C : Collaborators.

(** ** __init__ *)

Definition unsupported_model_type : exn :=
  mkExn ValueError "Unsupported model type. Use 'seq2seq' or 'causal'.".

(** The constructor runs on the trace alone: there is no object yet. *)
Definition init (name mtype : string) (margin : Z) (tr : trace)
  : result LLMQuestionAnswerer * trace :=
  match tokenizer_from_pretrained C tr name with
  | Raise e => (Raise e, tr ++ [LoadTokenizer name])
  | Ok _ =>
      let tr1 := tr ++ [LoadTokenizer name] in
      let built tr' :=
        (Ok (mkSelf name mtype margin [] None (config_hidden_size C) 3), tr') in
      if String.eqb mtype "seq2seq" then
        match seq2seq_from_pretrained C tr1 name with
        | Raise e => (Raise e, tr1 ++ [LoadSeq2Seq name])
        | Ok _ => built (tr1 ++ [LoadSeq2Seq name])
        end
      else if String.eqb mtype "causal" then
        match causal_from_pretrained C tr1 name with
        | Raise e => (Raise e, tr1 ++ [LoadCausal name])
        | Ok _ => built (tr1 ++ [LoadCausal name])
        end
      else (Raise unsupported_model_type, tr1)
  end.

(** ** max_chunk_size and split_document *)

Definition max_chunk_size (s : LLMQuestionAnswerer) : Z :=
  match config_max_position_embeddings C with
  | Some m => m
  | None => 500
  end - quest_ans_tokens_margin s.

(** One turn of the loop over the sentences; the accumulator is
    [(chunks, current_chunk, current_length)]. *)
Definition split_step (budget : Z)
  (acc : list string * list string * Z) (sentence : string)
  : list string * list string * Z :=
  let '(chunks, current_chunk, current_length) := acc in
  let sentence_length := Z.of_nat (List.length (tokenizer_encode C sentence)) in
  if current_length + sentence_length >? budget then
    ((if nonempty current_chunk
      then chunks ++ [String.concat " " current_chunk]
      else chunks),
     [sentence], sentence_length)
  else
    (chunks, current_chunk ++ [sentence], current_length + sentence_length).

Definition split_sentences (budget : Z) (sentences : list string)
  : list string :=
  let '(chunks, current_chunk, _) :=
    fold_left (split_step budget) sentences ([], [], 0) in
  if nonempty current_chunk
  then chunks ++ [String.concat " " current_chunk]
  else chunks.

Definition split_document (s : LLMQuestionAnswerer) (document : string)
  : list string :=
  split_sentences (max_chunk_size s) (sent_tokenize C document).

(** ** summarize_chunk and get_embedding *)

Definition pad26 : string := "                          ".

Definition summary_prompt : string :=
  ("Can you provide a comprehensive summary of the given text? " ++ pad26 ++
  "The summary should cover all the key points and main ideas presented in the original text, " ++ pad26 ++
  "while also condensing the information into a concise and easy-to-understand format. " ++ pad26 ++
  "Please ensure that the summary includes relevant details and examples that support the main ideas, " ++ pad26 ++
  "while avoiding any unnecessary information or repetition:")%string.

(** [inputs['input_ids'].shape[1]] *)
Definition shape1 (inputs : token_ids) : Z :=
  match inputs with
  | [] => 0
  | row :: _ => Z.of_nat (List.length row)
  end.

(** [outputs[0]] *)
Definition first_row (outputs : list (list Z)) : M (list Z) :=
  match outputs with
  | row :: _ => ret row
  | [] =>
      raise (mkExn IndexError
               "index 0 is out of bounds for dimension 0 with size 0")
  end.

(** The two decoding conventions, as every generation site spells them. *)
Definition generate (inputs : token_ids) (max_length : Z)
  : M (list (list Z)) :=
  s <- get_self ;;
  if String.eqb (model_type s) "seq2seq" then
    invoke (Generate inputs max_length)
           (fun tr => model_generate C tr inputs max_length)
  else
    invoke (Generate inputs (shape1 inputs + max_length))
           (fun tr => model_generate C tr inputs (shape1 inputs + max_length)).

Definition tokenize (texts : list string) (padding : bool) : M token_ids :=
  invoke (TokenizerCall texts padding)
         (fun tr => tokenizer_call C tr texts padding).

Definition decode (ids : list Z) : M string :=
  invoke (Decode ids) (fun tr => tokenizer_decode C tr ids).

Definition summarize_chunk (max_length : Z) (chunk : string) : M string :=
  inputs <- tokenize [(summary_prompt ++ chunk)%string] false ;;
  summary_ids <- generate inputs max_length ;;
  row <- first_row summary_ids ;;
  decode row.

Definition get_embedding (text : text_arg) : M tensor :=
  let text := match text with TStr s => [s] | TList l => l end in
  inputs <- tokenize text true ;;
  s <- get_self ;;
  last_hidden_state <-
    (if String.eqb (model_type s) "seq2seq"
     then invoke (Encoder inputs) (fun tr => model_encoder C tr inputs)
     else invoke (Forward inputs) (fun tr => model_forward C tr inputs)) ;;
  ret (map (mean C) last_hidden_state).

(** ** add_rag_data *)

Definition add_rag_data (documents : list string) (use_summaries : bool)
  : M unit :=
  s0 <- get_self ;;
  let all_chunks := flat_map (split_document s0) documents in
  new_embeddings <-
    (if use_summaries then
       summaries <- mapM (summarize_chunk 100) all_chunks ;;
       s <- get_self ;;
       set_rag_data (rag_data s ++ summaries) ;;;
       get_embedding (TList summaries)
     else
       s <- get_self ;;
       set_rag_data (rag_data s ++ all_chunks) ;;;
       get_embedding (TList all_chunks)) ;;
  s <- get_self ;;
  match rag_embeddings s with
  | None => set_rag_embeddings (Some new_embeddings)
  | Some old => set_rag_embeddings (Some (old ++ new_embeddings))
  end ;;;
  s <- get_self ;;
  invoke (PrintAdded (List.length all_chunks) (List.length documents)
                     (List.length (rag_data s)))
         (fun _ => Ok tt).

(** ** get_relevant_context *)

(** [torch.cosine_similarity] along dim 1 of two 2-D tensors, rows
    broadcast. *)
Definition cosine_similarity (x1 x2 : tensor) : result (list Q) :=
  match x1, x2 with
  | [q], _ => Ok (map (cosine C q) x2)
  | _, [e] => Ok (map (fun q => cosine C q e) x1)
  | _, _ =>
      if Nat.eqb (List.length x1) (List.length x2)
      then Ok (map (fun p => cosine C (fst p) (snd p)) (combine x1 x2))
      else Raise (mkExn RuntimeError
        "The size of tensor a must match the size of tensor b at non-singleton dimension 0")
  end.

End Methods.

(** [Tensor.topk]: the k largest entries, largest first, with their
    positions; k outside [0, n] is refused.  The order is that of a stable
    insertion sort on the scores, so that equal scores keep their positions'
    order. *)
Fixpoint insert_descending (x : Q * nat) (l : list (Q * nat))
  : list (Q * nat) :=
  match l with
  | [] => [x]
  | y :: l' =>
      if Qle_bool (fst y) (fst x) then x :: y :: l'
      else y :: insert_descending x l'
  end.

Fixpoint sort_descending (l : list (Q * nat)) : list (Q * nat) :=
  match l with
  | [] => []
  | x :: l' => insert_descending x (sort_descending l')
  end.

(** [x] may come before [y] when scores descend. *)
Definition before (x y : Q * nat) : Prop := (fst y <= fst x)%Q.

Definition enumerate (values : list Q) : list (Q * nat) :=
  combine values (seq 0 (List.length values)).

Definition topk (values : list Q) (k : Z) : result (list Q * list nat) :=
  if (0 <=? k) && (k <=? Z.of_nat (List.length values)) then
    let best := firstn (Z.to_nat k) (sort_descending (enumerate values)) in
    Ok (map fst best, map snd best)
  else Raise (mkExn RuntimeError "selected index k out of range").

Section Queries.

Variable C : Collaborators.

(** [self.rag_data[i]] *)
Definition rag_data_at (i : nat) : M string :=
  s <- get_self ;;
  match nth_error (rag_data s) i with
  | Some chunk => ret chunk
  | None => raise (mkExn IndexError "list index out of range")
  end.

Definition get_relevant_context (question : string) : M string :=
  s <- get_self ;;
  match rag_embeddings s with
  | None => ret EmptyString
  | Some embeddings =>
      question_embedding <- get_embedding C (TStr question) ;;
      similarities <- lift (cosine_similarity C question_embedding embeddings) ;;
      s <- get_self ;;
      top <- lift (topk similarities (rag_k_nearest_neighbors s)) ;;
      relevant_chunks <- mapM rag_data_at (snd top) ;;
      ret (String.concat " " relevant_chunks)
  end.

(** ** generate_structured_output and answer_question *)

Definition generate_structured_output
  (prompt : string) (output_structure : list (string * pyvalue))
  (max_length : Z) : M json :=
  structure_prompt <- lift (json_dumps_indent2 C (PDict output_structure)) ;;
  let full_prompt :=
    (prompt ++ nl ++ nl ++
     "Generate a response in the following JSON structure:" ++ nl ++
     structure_prompt ++ nl ++ "Response:")%string in
  try_except
    (inputs <- tokenize C [full_prompt] false ;;
     outputs <- generate C inputs max_length ;;
     row <- first_row outputs ;;
     response <- decode C row ;;
     try_except_class JSONDecodeError
       (lift (json_loads C response))
       (ret (JObj [("error", JStr "Failed to generate valid JSON structure");
                   ("raw_response", JStr response)])))
    (fun e =>
       ret (JObj [("error", JStr ("An error occurred: " ++ exn_str e)%string)])).

(** Truthiness of [output_structure]: [None] and the empty dict are false. *)
Definition truthy (output_structure : option (list (string * pyvalue)))
  : bool :=
  match output_structure with
  | Some (_ :: _) => true
  | _ => false
  end.

Definition context_prompt (context prompt : string) : string :=
  ("Context: " ++ context ++ nl ++ nl ++ "Question: " ++ prompt ++
   nl ++ nl ++ "Answer:")%string.

Definition plain_prompt (prompt : string) : string :=
  ("Question: " ++ prompt ++ nl ++ nl ++ "Answer:")%string.

(** What [answer_question] does once [full_prompt] is assembled; the value
    returned is a Python object, a [str] on the plain path. *)
Definition answer_prompt (full_prompt : string) (max_length : Z)
  (output_structure : option (list (string * pyvalue))) : M json :=
  if truthy output_structure then
    generate_structured_output full_prompt
      (match output_structure with Some d => d | None => [] end)
      max_length
  else
    try_except
      (inputs <- tokenize C [full_prompt] false ;;
       outputs <- generate C inputs max_length ;;
       row <- first_row outputs ;;
       text <- decode C row ;;
       ret (JStr text))
      (fun e => ret (JStr ("An error occurred: " ++ exn_str e)%string)).

Definition answer_question (prompt : string) (use_rag : bool)
  (max_length : Z) (output_structure : option (list (string * pyvalue)))
  : M json :=
  full_prompt <-
    (if use_rag then
       context <- get_relevant_context prompt ;;
       ret (context_prompt context prompt)
     else ret (plain_prompt prompt)) ;;
  answer_prompt full_prompt max_length output_structure.

End Queries.

(** ** Ghost definitions for the chunker *)

Section ChunkerGhost.

Variable C : Collaborators.

Definition sentence_length (sentence : string) : Z :=
  Z.of_nat (List.length (tokenizer_encode C sentence)).

(** The running count of a chunk: the sum of its sentences' token counts. *)
Definition chunk_tokens (chunk : list string) : Z :=
  fold_right (fun sentence n => sentence_length sentence + n) 0 chunk.

(** [split_step] before the sentences of a chunk are joined. *)
Definition group_step (budget : Z)
  (acc : list (list string) * list string * Z) (sentence : string)
  : list (list string) * list string * Z :=
  let '(groups, current_chunk, current_length) := acc in
  if current_length + sentence_length sentence >? budget then
    ((if nonempty current_chunk then groups ++ [current_chunk] else groups),
     [sentence], sentence_length sentence)
  else
    (groups, current_chunk ++ [sentence],
     current_length + sentence_length sentence).

Definition flush (acc : list (list string) * list string * Z)
  : list (list string) :=
  let '(groups, current_chunk, _) := acc in
  if nonempty current_chunk then groups ++ [current_chunk] else groups.

Definition split_groups (budget : Z) (sentences : list string)
  : list (list string) :=
  flush (fold_left (group_step budget) sentences ([], [], 0)).

(** A chunk within the budget, or one oversized sentence alone. *)
Definition within_budget (budget : Z) (chunk : list string) : Prop :=
  chunk_tokens chunk <= budget \/
  exists sentence, chunk = [sentence] /\ budget < sentence_length sentence.

(** What holds of the accumulator once the sentences [seen] are consumed. *)
Definition chunker_inv (budget : Z) (seen : list string)
  (acc : list (list string) * list string * Z) : Prop :=
  let '(groups, current_chunk, current_length) := acc in
  List.concat groups ++ current_chunk = seen /\
  Forall (fun g => g <> []) groups /\
  current_length = chunk_tokens current_chunk /\
  Forall (within_budget budget) groups /\
  (current_chunk = [] \/ within_budget budget current_chunk).

Definition joined (acc : list (list string) * list string * Z)
  : list string * list string * Z :=
  let '(groups, current_chunk, current_length) := acc in
  (map (String.concat " ") groups, current_chunk, current_length).

End ChunkerGhost.

(** ** Ghost definitions for the store and the answer path *)

(** Rows of [rag_embeddings]; [None] holds none. *)
Definition rows (e : option tensor) : nat :=
  match e with
  | None => 0%nat
  | Some t => List.length t
  end.

(** The store invariant: one embedding row per stored text. *)
Definition store_ok (s : LLMQuestionAnswerer) : Prop :=
  List.length (rag_data s) = rows (rag_embeddings s).

(** A computation leaves the attribute [f] of the object as it found it. *)
Definition keeps {A X} (f : LLMQuestionAnswerer -> X) (m : M A) : Prop :=
  forall st, f (self (snd (m st))) = f (self st).

(** The embedder's contract: one row of token ids per text, one block of
    hidden states per row. *)
Definition batch_faithful (C : Collaborators) : Prop :=
  (forall tr texts padding inputs,
      tokenizer_call C tr texts padding = Ok inputs ->
      List.length inputs = List.length texts) /\
  (forall tr inputs h,
      model_encoder C tr inputs = Ok h ->
      List.length h = List.length inputs) /\
  (forall tr inputs h,
      model_forward C tr inputs = Ok h ->
      List.length h = List.length inputs).

(** The length cap a generation call passes, by decoding convention. *)
Definition length_cap (s : LLMQuestionAnswerer) (inputs : token_ids)
  (max_length : Z) : Z :=
  if String.eqb (model_type s) "seq2seq" then max_length
  else shape1 inputs + max_length.

(** The steps guarded by the [try] of [answer_question] and of
    [generate_structured_output]: tokenize, generate, decode [outputs[0]]. *)
Definition generation_steps (C : Collaborators) (full_prompt : string)
  (max_length : Z) : M string :=
  inputs <- tokenize C [full_prompt] false ;;
  outputs <- generate C inputs max_length ;;
  row <- first_row outputs ;;
  decode C row.

(** The first block of [answer_question]: the prompt, with or without
    retrieved context. *)
Definition assemble_prompt (C : Collaborators) (prompt : string)
  (use_rag : bool) : M string :=
  if use_rag then
    context <- get_relevant_context C prompt ;;
    ret (context_prompt context prompt)
  else ret (plain_prompt prompt).

(** The prompt [generate_structured_output] builds once [json.dumps] has
    rendered the structure as [rendering]. *)
Definition structure_prompt (prompt rendering : string) : string :=
  (prompt ++ nl ++ nl ++
   "Generate a response in the following JSON structure:" ++ nl ++
   rendering ++ nl ++ "Response:")%string.

(** [json.dumps] accepts the structure the structured path would render;
    nothing is asked of it on the plain path. *)
Definition serialisable (C : Collaborators)
  (output_structure : option (list (string * pyvalue))) : Prop :=
  truthy output_structure = true ->
  exists rendering,
    json_dumps_indent2 C
      (PDict (match output_structure with Some d => d | None => [] end))
    = Ok rendering.

Definition parse_failure (response : string) : json :=
  JObj [("error", JStr "Failed to generate valid JSON structure");
        ("raw_response", JStr response)].

Definition error_record (e : exn) : json :=
  JObj [("error", JStr ("An error occurred: " ++ exn_str e)%string)].

Definition error_text (e : exn) : json :=
  JStr ("An error occurred: " ++ exn_str e)%string.

(** The calls a client can make on a constructed object. *)
Inductive method_call : Type :=
| CallSummarize (chunk : string) (max_length : Z)
| CallEmbed (text : text_arg)
| CallAdd (documents : list string) (use_summaries : bool)
| CallContext (question : string)
| CallAnswer (prompt : string) (use_rag : bool) (max_length : Z)
    (output_structure : option (list (string * pyvalue)))
| CallStructured (prompt : string)
    (output_structure : list (string * pyvalue))
    (max_length : Z).

(** The state a call leaves, whether it returned or raised. *)
Definition run_call (C : Collaborators) (st : state) (c : method_call)
  : state :=
  match c with
  | CallSummarize chunk max_length => snd (summarize_chunk C max_length chunk st)
  | CallEmbed text => snd (get_embedding C text st)
  | CallAdd documents use_summaries =>
      snd (add_rag_data C documents use_summaries st)
  | CallContext question => snd (get_relevant_context C question st)
  | CallAnswer prompt use_rag max_length output_structure =>
      snd (answer_question C prompt use_rag max_length output_structure st)
  | CallStructured prompt output_structure max_length =>
      snd (generate_structured_output C prompt output_structure max_length st)
  end.

Definition run_calls (C : Collaborators) (st : state)
  (cs : list method_call) : state :=
  fold_left (run_call C) cs st.

Definition is_raise {A} (r : result A) : bool :=
  match r with Raise _ => true | Ok _ => false end.

(** A sequence of [add_rag_data] calls, the client going on after a failed
    one; every call's outcome is kept. *)
Fixpoint run_adds (C : Collaborators) (adds : list (list string * bool))
  (st : state) : list (result unit) * state :=
  match adds with
  | [] => ([], st)
  | (documents, use_summaries) :: rest =>
      let '(r, st1) := add_rag_data C documents use_summaries st in
      let '(rs, st2) := run_adds C rest st1 in
      (r :: rs, st2)
  end.

(** ** Concrete collaborators, for running the methods *)

Module Toy.

(** Sentences end at a full stop; blanks between sentences are dropped. *)
Fixpoint sentences_from (current : string) (s : string) : list string :=
  match s with
  | EmptyString =>
      match current with EmptyString => [] | _ => [current] end
  | String c rest =>
      if Ascii.eqb c "."%char then
        (current ++ ".")%string :: sentences_from EmptyString rest
      else if Ascii.eqb c " "%char && String.eqb current EmptyString then
        sentences_from EmptyString rest
      else sentences_from (current ++ String c EmptyString)%string rest
  end.

(** One token per character. *)
Definition encode (s : string) : list Z :=
  map (fun c => Z.of_nat (nat_of_ascii c)) (list_ascii_of_string s).

Definition decode_ids (ids : list Z) : string :=
  string_of_list_ascii (map (fun z => ascii_of_nat (Z.to_nat z)) ids).

Definition hidden (inputs : token_ids) : list (list vec) :=
  map (map (fun id => [inject_Z id])) inputs.

Definition head (v : vec) : Q :=
  match v with [] => 0%Q | x :: _ => x end.

Definition mean_pool (vs : list vec) : vec :=
  [(fold_right (fun v acc => head v + acc) 0 vs
    / inject_Z (Z.of_nat (List.length vs)))%Q].

(** A stand-in for the similarity kernel: the closer, the larger. *)
Definition closeness (a b : vec) : Q :=
  (- ((head a - head b) * (head a - head b)))%Q.

(** [json.dumps] of the toy: every structure of JSON shape renders as "{}",
    anything else is refused. *)
Fixpoint dumpable (v : pyvalue) : bool :=
  match v with
  | PJson _ => true
  | PObject _ => false
  | PList l => forallb dumpable l
  | PDict fields => forallb (fun kv => let '(_, x) := kv in dumpable x) fields
  end.

Definition dumps (v : pyvalue) : result string :=
  if dumpable v then Ok "{}"
  else Raise (mkExn TypeError
                "Object of type type is not JSON serializable").

Definition parse (s : string) : result json :=
  if String.eqb s "null" then Ok JNull
  else Raise (mkExn JSONDecodeError
                "Expecting value: line 1 column 1 (char 0)").

Definition out_of_memory : exn := mkExn RuntimeError "CUDA out of memory".

Definition is_encoder_call (c : call) : bool :=
  match c with Encoder _ => true | _ => false end.

Definition tokenizer_ok (_ : trace) (texts : list string) (_ : bool)
  : result token_ids :=
  Ok (map encode texts).

(** A generator whose output decodes to the given text. *)
Definition generator_saying (text : string) (_ : trace) (_ : token_ids)
  (_ : Z) : result (list (list Z)) :=
  Ok [encode text].

Definition encoder_ok (_ : trace) (inputs : token_ids)
  : result (list (list vec)) :=
  Ok (hidden inputs).


Definition make
  (tok : trace -> list string -> bool -> result token_ids)
  (gen : trace -> token_ids -> Z -> result (list (list Z)))
  (enc : trace -> token_ids -> result (list (list vec)))
  : Collaborators := {|
  sent_tokenize := sentences_from EmptyString;
  tokenizer_encode := encode;
  tokenizer_from_pretrained := fun _ _ => Ok tt;
  seq2seq_from_pretrained := fun _ _ => Ok tt;
  causal_from_pretrained := fun _ _ => Ok tt;
  config_max_position_embeddings := Some 512;
  config_hidden_size := 1;
  tokenizer_call := tok;
  model_generate := gen;
  tokenizer_decode := fun _ ids => Ok (decode_ids ids);
  model_encoder := enc;
  model_forward := enc;
  mean := mean_pool;
  cosine := closeness;
  json_dumps_indent2 := dumps;
  json_loads := parse
|}.

(** Everything works; the model answers "ok". *)
Definition collaborators : Collaborators :=
  make tokenizer_ok (generator_saying "ok") encoder_ok.

(** The model answers "null", which is JSON. *)
Definition null_generator : Collaborators :=
  make tokenizer_ok (generator_saying "null") encoder_ok.

Definition failing_encoder : Collaborators :=
  make tokenizer_ok (generator_saying "ok") (fun _ _ => Raise out_of_memory).


Definition failing_tokenizer : Collaborators :=
  make (fun _ _ _ => Raise (mkExn ValueError "text input must be of type str"))
       (generator_saying "ok") encoder_ok.


(** A freshly constructed seq2seq object, before any call is logged. *)
Definition fresh : state :=
  mkState (mkSelf "google/flan-t5-base" "seq2seq" 100 [] None 1 3) [].

(** Four documents of one short sentence each. *)
Definition four_documents : list string := ["A."; "B."; "C."; "D."].

(** The store after the documents went in. *)
Definition stocked (C : Collaborators) (documents : list string) : state :=
  snd (add_rag_data C documents false fresh).

End Toy.

(** ** Further ghost definitions *)

(** Chunk boundaries are forced: a group ends only where the next sentence
    would not fit. *)
Fixpoint greedy (C : Collaborators) (budget : Z)
  (groups : list (list string)) : Prop :=
  match groups with
  | [] => True
  | g1 :: rest =>
      match rest with
      | [] => True
      | g2 :: _ =>
          match g2 with
          | [] => False
          | sentence :: _ =>
              budget < chunk_tokens C g1 + sentence_length C sentence
          end /\ greedy C budget rest
      end
  end.

(** The attributes set by the constructor and read by the methods. *)
Definition configuration (s : LLMQuestionAnswerer)
  : string * string * Z * Z * Z :=
  (model_name s, model_type s, quest_ans_tokens_margin s, embedding_size s,
   rag_k_nearest_neighbors s).

(** The rows of [rag_embeddings], none while it is [None]. *)
Definition embedding_rows (s : LLMQuestionAnswerer) : tensor :=
  match rag_embeddings s with
  | None => []
  | Some t => t
  end.

(** What a collaborator call may be, for an object of model type [mt] running
    a method that generates (or not), embeds (or not), with the length cap
    [max_length]: generation under the decoding convention, the encoder for
    seq2seq and the full model otherwise, and no loading. *)
Definition conforms (generates embeds : bool) (max_length : Z)
  (mt : string) (c : call) : Prop :=
  match c with
  | Generate inputs cap =>
      generates = true /\
      cap = if String.eqb mt "seq2seq" then max_length
            else shape1 inputs + max_length
  | Decode _ => generates = true
  | Encoder _ => embeds = true /\ mt = "seq2seq"
  | Forward _ => embeds = true /\ mt <> "seq2seq"
  | TokenizerCall _ _ => True
  | PrintAdded _ _ _ => True
  | LoadTokenizer _ | LoadSeq2Seq _ | LoadCausal _ => False
  end.

(** A computation only adds calls to the trace, each of them allowed by [P]
    at the object's model type, which it keeps. *)
Definition emits {A} (P : string -> call -> Prop) (m : M A) : Prop :=
  forall st,
    exists new,
      calls (snd (m st)) = calls st ++ new /\
      Forall (P (model_type (self st))) new /\
      model_type (self (snd (m st))) = model_type (self st).

Definition is_generation_call (c : call) : bool :=
  match c with Generate _ _ | Decode _ => true | _ => false end.

Definition is_embedding_call (c : call) : bool :=
  match c with Encoder _ | Forward _ => true | _ => false end.

(** The calls a computation adds to the trace. *)
Definition added {A} (m : M A) (st : state) : trace :=
  skipn (List.length (calls st)) (calls (snd (m st))).

(** The calls a sequence of method calls adds to the trace. *)
Definition added_by_calls (C : Collaborators) (st : state)
  (cs : list method_call) : trace :=
  skipn (List.length (calls st)) (calls (run_calls C st cs)).

(** The encoder alone for seq2seq, the full model otherwise, and nothing
    loaded once the object is constructed. *)
Definition follows_embedding_path (mt : string) (c : call) : Prop :=
  match c with
  | Encoder _ => mt = "seq2seq"
  | Forward _ => mt <> "seq2seq"
  | LoadTokenizer _ | LoadSeq2Seq _ | LoadCausal _ => False
  | _ => True
  end.

(** The collaborators [C] with another [json.loads]. *)
Definition with_json_loads (C : Collaborators)
  (loads : string -> result json) : Collaborators := {|
  sent_tokenize := sent_tokenize C;
  tokenizer_encode := tokenizer_encode C;
  tokenizer_from_pretrained := tokenizer_from_pretrained C;
  seq2seq_from_pretrained := seq2seq_from_pretrained C;
  causal_from_pretrained := causal_from_pretrained C;
  config_max_position_embeddings := config_max_position_embeddings C;
  config_hidden_size := config_hidden_size C;
  tokenizer_call := tokenizer_call C;
  model_generate := model_generate C;
  tokenizer_decode := tokenizer_decode C;
  model_encoder := model_encoder C;
  model_forward := model_forward C;
  mean := mean C;
  cosine := cosine C;
  json_dumps_indent2 := json_dumps_indent2 C;
  json_loads := loads
|}.

(** A [json.loads] that gives up on nesting, as on a RecursionError. *)
Definition loads_too_deep (_ : string) : result json :=
  Raise (mkExn OtherException
           "maximum recursion depth exceeded while decoding a JSON array").

(** A tokenizer that refuses an empty batch and serves any other. *)
Definition strict_tokenizer : Collaborators :=
  Toy.make
    (fun tr texts padding =>
       match texts with
       | [] => Raise (mkExn IndexError "list index out of range")
       | _ => Toy.tokenizer_ok tr texts padding
       end)
    (Toy.generator_saying "ok") Toy.encoder_ok.

(** An encoder that is out of memory on its first call and serves every
    later one. *)
Definition recovering_encoder : Collaborators :=
  Toy.make Toy.tokenizer_ok (Toy.generator_saying "ok")
    (fun tr inputs =>
       if existsb Toy.is_encoder_call tr then Ok (Toy.hidden inputs)
       else Raise Toy.out_of_memory).

(** * Theorems *)

(** ** The chunker *)

Section ChunkerFacts.

Variable C : Collaborators.

Lemma string_append_assoc (a b c : string) :
  ((a ++ b) ++ c)%string = (a ++ b ++ c)%string.
Proof.
  induction a as [| ch a IH]; simpl.
  - reflexivity.
  - rewrite IH. reflexivity.
Qed.

Lemma join_cons (sep x : string) (l : list string) :
  l <> [] ->
  String.concat sep (x :: l) = (x ++ sep ++ String.concat sep l)%string.
Proof.
  destruct l as [| y l]; [congruence | reflexivity].
Qed.

Lemma join_app (sep : string) (l1 l2 : list string) :
  l1 <> [] -> l2 <> [] ->
  String.concat sep (l1 ++ l2) =
  (String.concat sep l1 ++ sep ++ String.concat sep l2)%string.
Proof.
  induction l1 as [| x l1 IH]; intros H1 H2; [congruence |].
  destruct l1 as [| y l1].
  - simpl app. apply join_cons. exact H2.
  - change ((x :: y :: l1) ++ l2) with (x :: ((y :: l1) ++ l2)).
    rewrite join_cons by discriminate.
    rewrite IH by (discriminate || assumption).
    rewrite (join_cons sep x (y :: l1)) by discriminate.
    rewrite !string_append_assoc. reflexivity.
Qed.

(** Joining the joined groups is joining all their sentences. *)
Lemma join_groups (sep : string) (groups : list (list string)) :
  Forall (fun g => g <> []) groups ->
  String.concat sep (map (String.concat sep) groups) =
  String.concat sep (List.concat groups).
Proof.
  induction groups as [| g gs IH]; intros H; [reflexivity |].
  inversion H as [| ? ? Hg Hgs]; subst.
  destruct gs as [| g' gs].
  - simpl. rewrite app_nil_r. reflexivity.
  - change (map (String.concat sep) (g :: g' :: gs))
      with (String.concat sep g :: map (String.concat sep) (g' :: gs)).
    rewrite join_cons by discriminate.
    rewrite IH by assumption.
    change (List.concat (g :: g' :: gs)) with (g ++ List.concat (g' :: gs)).
    rewrite join_app; [reflexivity | assumption |].
    inversion Hgs; subst. simpl.
    destruct g'; [congruence | discriminate].
Qed.

Lemma chunk_tokens_app (l1 l2 : list string) :
  chunk_tokens C (l1 ++ l2) = chunk_tokens C l1 + chunk_tokens C l2.
Proof.
  induction l1 as [| x l1 IH]; simpl; [reflexivity | lia].
Qed.

Lemma chunk_tokens_nonneg (l : list string) : 0 <= chunk_tokens C l.
Proof.
  induction l as [| x l IH]; simpl; [lia |].
  unfold sentence_length. lia.
Qed.

Lemma chunk_tokens_In (l : list string) (x : string) :
  In x l -> sentence_length C x <= chunk_tokens C l.
Proof.
  induction l as [| y l IH]; simpl; intros H; [contradiction |].
  destruct H as [-> | H].
  - pose proof (chunk_tokens_nonneg l). lia.
  - specialize (IH H). unfold sentence_length at 2. lia.
Qed.

Lemma split_step_joined (budget : Z) acc (sentence : string) :
  split_step C budget (joined acc) sentence =
  joined (group_step C budget acc sentence).
Proof.
  destruct acc as [[groups cur] n]. unfold joined, split_step, group_step.
  fold (sentence_length C sentence).
  destruct (n + sentence_length C sentence >? budget).
  - destruct cur; simpl; [reflexivity |].
    rewrite map_app. reflexivity.
  - reflexivity.
Qed.

Lemma fold_split_step_joined (budget : Z) (sentences : list string) acc :
  fold_left (split_step C budget) sentences (joined acc) =
  joined (fold_left (group_step C budget) sentences acc).
Proof.
  revert acc. induction sentences as [| x l IH]; intros acc; simpl.
  - reflexivity.
  - rewrite split_step_joined. apply IH.
Qed.

Lemma split_sentences_groups (budget : Z) (sentences : list string) :
  split_sentences C budget sentences =
  map (String.concat " ") (split_groups C budget sentences).
Proof.
  unfold split_sentences, split_groups.
  change (@nil string, @nil string, 0) with (joined ([], [], 0)).
  rewrite fold_split_step_joined.
  destruct (fold_left (group_step C budget) sentences ([], [], 0))
    as [[groups cur] n].
  simpl. destruct cur; simpl; [reflexivity |].
  rewrite map_app. reflexivity.
Qed.

Lemma group_step_inv (budget : Z) (seen : list string) acc (x : string) :
  chunker_inv C budget seen acc ->
  chunker_inv C budget (seen ++ [x]) (group_step C budget acc x).
Proof.
  destruct acc as [[groups cur] n].
  unfold chunker_inv, group_step.
  intros (Hseen & Hne & Hn & Hgs & Hcur).
  destruct (n + sentence_length C x >? budget) eqn:E.
  - assert (Hx : within_budget C budget [x]).
    { unfold within_budget. simpl.
      destruct (Z_le_gt_dec (sentence_length C x) budget) as [Hle | Hgt].
      - left. lia.
      - right. exists x. split; [reflexivity | lia]. }
    destruct cur as [| y cur]; simpl nonempty; cbv iota.
    + rewrite app_nil_r in Hseen. subst seen.
      repeat split; auto. simpl. lia.
    + repeat split.
      * rewrite List.concat_app. simpl List.concat. rewrite app_nil_r.
        rewrite Hseen. reflexivity.
      * apply Forall_app. split; [assumption |].
        constructor; [discriminate | constructor].
      * simpl. lia.
      * apply Forall_app. split; [assumption |].
        constructor; [| constructor].
        destruct Hcur as [Hcur | Hcur]; [discriminate | exact Hcur].
      * right. exact Hx.
  - repeat split.
    + rewrite app_assoc. rewrite Hseen. reflexivity.
    + assumption.
    + rewrite chunk_tokens_app. simpl. lia.
    + assumption.
    + right. left. rewrite chunk_tokens_app. simpl.
      rewrite Z.gtb_ltb, Z.ltb_ge in E. lia.
Qed.

Lemma fold_group_step_inv (budget : Z) (sentences seen : list string) acc :
  chunker_inv C budget seen acc ->
  chunker_inv C budget (seen ++ sentences)
    (fold_left (group_step C budget) sentences acc).
Proof.
  revert seen acc. induction sentences as [| x l IH]; intros seen acc H.
  - simpl. rewrite app_nil_r. exact H.
  - simpl.
    replace (seen ++ x :: l) with ((seen ++ [x]) ++ l)
      by (rewrite <- app_assoc; reflexivity).
    apply IH. apply group_step_inv. exact H.
Qed.

Lemma split_groups_spec (budget : Z) (sentences : list string) :
  List.concat (split_groups C budget sentences) = sentences /\
  Forall (fun g => g <> []) (split_groups C budget sentences) /\
  Forall (within_budget C budget) (split_groups C budget sentences).
Proof.
  unfold split_groups.
  assert (H0 : chunker_inv C budget [] ([], [], 0)).
  { simpl. repeat split; auto. }
  pose proof (fold_group_step_inv budget sentences [] _ H0) as H.
  simpl app in H.
  destruct (fold_left (group_step C budget) sentences ([], [], 0))
    as [[groups cur] n].
  simpl in H. destruct H as (Hseen & Hne & _ & Hgs & Hcur).
  unfold flush. destruct cur as [| y cur]; simpl nonempty; cbv iota.
  - rewrite app_nil_r in Hseen. auto.
  - repeat split.
    + rewrite List.concat_app. simpl List.concat. rewrite app_nil_r. exact Hseen.
    + apply Forall_app. split; [assumption |].
      constructor; [discriminate | constructor].
    + apply Forall_app. split; [assumption |].
      constructor; [| constructor].
      destruct Hcur as [Hcur | Hcur]; [discriminate | exact Hcur].
Qed.

(** C4: the chunks of [split_document] are the joins of consecutive,
    non-empty groups of the document's sentences; laid end to end the groups
    are the sentence list itself, so every sentence sits in exactly one
    chunk, whole, and in its place; joining the chunks with single spaces
    gives the same text as joining the sentences. *)
Theorem split_document_covers_sentences :
  forall (s : LLMQuestionAnswerer) (document : string),
  exists groups : list (list string),
    split_document C s document = map (String.concat " ") groups /\
    List.concat groups = sent_tokenize C document /\
    Forall (fun g => g <> []) groups /\
    String.concat " " (split_document C s document) =
    String.concat " " (sent_tokenize C document).
Proof.
  intros s document.
  exists (split_groups C (max_chunk_size C s) (sent_tokenize C document)).
  destruct (split_groups_spec (max_chunk_size C s) (sent_tokenize C document))
    as (Hcat & Hne & _).
  unfold split_document. rewrite split_sentences_groups.
  repeat split; try assumption.
  rewrite join_groups by assumption. rewrite Hcat. reflexivity.
Qed.

(** C5, as amended: the budget bounds the chunker's own count.  Every chunk
    of [split_document] is the join of a group of consecutive sentences
    whose token counts, each taken by [tokenizer.encode] on the sentence
    alone and added up, stay within the budget [max_chunk_size], unless the
    group is one sentence whose own count exceeds the budget; and a sentence
    whose count exceeds the budget is alone in its chunk. *)
Theorem split_document_within_budget :
  forall (s : LLMQuestionAnswerer) (document : string),
  exists groups : list (list string),
    split_document C s document = map (String.concat " ") groups /\
    List.concat groups = sent_tokenize C document /\
    Forall (fun g =>
              chunk_tokens C g <= max_chunk_size C s \/
              exists sentence,
                g = [sentence] /\
                max_chunk_size C s < sentence_length C sentence) groups /\
    Forall (fun g =>
              forall sentence,
                In sentence g ->
                max_chunk_size C s < sentence_length C sentence ->
                g = [sentence]) groups.
Proof.
  intros s document.
  exists (split_groups C (max_chunk_size C s) (sent_tokenize C document)).
  destruct (split_groups_spec (max_chunk_size C s) (sent_tokenize C document))
    as (Hcat & _ & Hb).
  unfold split_document. rewrite split_sentences_groups.
  repeat split; try assumption.
  rewrite Forall_forall in *. intros g Hg x Hx Hbig.
  destruct (Hb g Hg) as [Hle | (y & -> & _)].
  - pose proof (chunk_tokens_In g x Hx). lia.
  - destruct Hx as [-> | []]. reflexivity.
Qed.

End ChunkerFacts.

(** C5, the token length of a chunk can exceed the budget.  With one token
    per character and a budget of 6, the sentences "Aa." and "Bb." count 3
    tokens each, so the chunker puts them in one chunk; the chunk is
    "Aa. Bb.", of two sentences, and its own token length is 7: the space
    that joins the sentences was never counted. *)
Lemma split_document_chunk_exceeds_budget :
  let C := Toy.collaborators in
  let s := mkSelf "google/flan-t5-base" "seq2seq" 506 [] None 1 3 in
  max_chunk_size C s = 6 /\
  sent_tokenize C "Aa. Bb." = ["Aa."; "Bb."] /\
  sentence_length C "Aa." = 3 /\
  sentence_length C "Bb." = 3 /\
  split_document C s "Aa. Bb." = ["Aa. Bb."] /\
  Z.of_nat (List.length (tokenizer_encode C "Aa. Bb.")) = 7.
Proof.
  cbv zeta. split; [| split; [| split; [| split; [| split]]]];
    vm_compute; reflexivity.
Qed.

(** ** topk *)

Section TopkFacts.

Lemma insert_descending_perm (x : Q * nat) (l : list (Q * nat)) :
  Permutation (x :: l) (insert_descending x l).
Proof.
  induction l as [| y l IH]; simpl.
  - apply Permutation_refl.
  - destruct (Qle_bool (fst y) (fst x)).
    + apply Permutation_refl.
    + eapply perm_trans; [apply perm_swap |].
      apply perm_skip. exact IH.
Qed.

Lemma sort_descending_perm (l : list (Q * nat)) :
  Permutation l (sort_descending l).
Proof.
  induction l as [| x l IH]; simpl.
  - apply perm_nil.
  - eapply perm_trans; [apply perm_skip; exact IH |].
    apply insert_descending_perm.
Qed.

Lemma insert_descending_sorted (x : Q * nat) (l : list (Q * nat)) :
  StronglySorted before l -> StronglySorted before (insert_descending x l).
Proof.
  induction l as [| y l IH]; simpl; intros H.
  - constructor; constructor.
  - inversion H as [| ? ? Hl Hy]; subst.
    destruct (Qle_bool (fst y) (fst x)) eqn:E.
    + apply Qle_bool_iff in E.
      constructor; [exact H |].
      constructor; [exact E |].
      rewrite Forall_forall in *. intros z Hz.
      unfold before in *. eapply Qle_trans; [apply Hy; exact Hz | exact E].
    + constructor; [apply IH; exact Hl |].
      assert (Hxy : before y x).
      { unfold before.
        destruct (Qlt_le_dec (fst y) (fst x)) as [Hlt | Hle]; [| exact Hle].
        apply Qlt_le_weak in Hlt. apply Qle_bool_iff in Hlt. congruence. }
      rewrite Forall_forall in *. intros z Hz.
      apply (Permutation_in z
               (Permutation_sym (insert_descending_perm x l))) in Hz.
      destruct Hz as [<- | Hz]; [exact Hxy | apply Hy; exact Hz].
Qed.

Lemma sort_descending_sorted (l : list (Q * nat)) :
  StronglySorted before (sort_descending l).
Proof.
  induction l as [| x l IH]; simpl.
  - constructor.
  - apply insert_descending_sorted. exact IH.
Qed.

Lemma strongly_sorted_app {A} (R : A -> A -> Prop) (l1 l2 : list A) :
  StronglySorted R (l1 ++ l2) ->
  StronglySorted R l1 /\
  (forall a b, In a l1 -> In b l2 -> R a b).
Proof.
  induction l1 as [| x l1 IH]; simpl; intros H.
  - split; [constructor | intros a b []].
  - inversion H as [| ? ? Hs Hx]; subst.
    destruct (IH Hs) as [H1 Hcross].
    rewrite Forall_forall in Hx.
    split.
    + constructor; [exact H1 |].
      rewrite Forall_forall. intros z Hz. apply Hx.
      apply in_or_app. left. exact Hz.
    + intros a b [<- | Ha] Hb.
      * apply Hx. apply in_or_app. right. exact Hb.
      * apply Hcross; assumption.
Qed.

Lemma strongly_sorted_map {A B} (R : A -> A -> Prop) (S : B -> B -> Prop)
  (f : A -> B) (l : list A) :
  (forall a b, In a l -> In b l -> R a b -> S (f a) (f b)) ->
  StronglySorted R l -> StronglySorted S (map f l).
Proof.
  induction l as [| x l IH]; simpl; intros Hf H.
  - constructor.
  - inversion H as [| ? ? Hs Hx]; subst.
    constructor.
    + apply IH; [| exact Hs].
      intros a b Ha Hb. apply Hf; right; assumption.
    + rewrite Forall_forall in *. intros y Hy.
      apply in_map_iff in Hy. destruct Hy as (z & <- & Hz).
      apply Hf; [left; reflexivity | right; exact Hz | apply Hx; exact Hz].
Qed.

Lemma combine_seq_snd {A} (l : list A) (start : nat) :
  map snd (combine l (seq start (List.length l))) = seq start (List.length l).
Proof.
  revert start. induction l as [| x l IH]; intros start; simpl.
  - reflexivity.
  - rewrite IH. reflexivity.
Qed.

Lemma combine_seq_nth {A} (l : list A) (start : nat) (d : A) (p : A * nat) :
  In p (combine l (seq start (List.length l))) ->
  (start <= snd p < start + List.length l)%nat /\
  fst p = nth (snd p - start) l d.
Proof.
  revert start. induction l as [| x l IH]; intros start; simpl.
  - intros [].
  - intros [<- | H].
    + simpl. rewrite Nat.sub_diag. split; [lia | reflexivity].
    + destruct (IH _ H) as [Hr Hf]. split; [lia |].
      rewrite Hf.
      replace (snd p - start)%nat with (S (snd p - S start)) by lia.
      reflexivity.
Qed.

Lemma nth_in_combine_seq {A} (l : list A) (start : nat) (d : A) (j : nat) :
  (j < List.length l)%nat ->
  In (nth j l d, (start + j)%nat) (combine l (seq start (List.length l))).
Proof.
  revert start j. induction l as [| x l IH]; intros start j Hj; simpl in *.
  - lia.
  - destruct j as [| j].
    + left. rewrite Nat.add_0_r. reflexivity.
    + right. replace (start + S j)%nat with (S start + j)%nat by lia.
      apply IH. lia.
Qed.

Lemma enumerate_length (values : list Q) :
  List.length (enumerate values) = List.length values.
Proof.
  unfold enumerate. rewrite length_combine, length_seq. lia.
Qed.

(** What [topk] returns for a legal [k]: [k] distinct positions, their
    values, largest first, and nothing left out is larger than anything
    taken. *)
Lemma topk_spec (values : list Q) (k : Z) (d : Q) :
  0 <= k <= Z.of_nat (List.length values) ->
  exists indices : list nat,
    topk values k = Ok (map (fun i => nth i values d) indices, indices) /\
    Z.of_nat (List.length indices) = k /\
    NoDup indices /\
    Forall (fun i => (i < List.length values)%nat) indices /\
    StronglySorted (fun i j => (nth j values d <= nth i values d)%Q) indices /\
    (forall i j, In i indices -> (j < List.length values)%nat ->
                 ~ In j indices -> (nth j values d <= nth i values d)%Q).
Proof.
  intros Hk. unfold topk.
  replace ((0 <=? k) && (k <=? Z.of_nat (List.length values))) with true
    by (symmetry; apply andb_true_iff; split; apply Z.leb_le; lia).
  set (sorted := sort_descending (enumerate values)).
  set (best := firstn (Z.to_nat k) sorted).
  assert (Hperm : Permutation (enumerate values) sorted)
    by apply sort_descending_perm.
  assert (Hsorted : StronglySorted before sorted)
    by apply sort_descending_sorted.
  assert (Hsplit : sorted = best ++ skipn (Z.to_nat k) sorted)
    by (symmetry; apply firstn_skipn).
  assert (Hpair : forall p, In p sorted ->
            (snd p < List.length values)%nat /\ fst p = nth (snd p) values d).
  { intros p Hp. apply (Permutation_in p (Permutation_sym Hperm)) in Hp.
    destruct (combine_seq_nth values 0 d p Hp) as [Hr Hf].
    rewrite Nat.sub_0_r in Hf. split; [lia | exact Hf]. }
  assert (Hbest : forall p, In p best -> In p sorted).
  { intros p Hp. rewrite Hsplit. apply in_or_app. left. exact Hp. }
  rewrite Hsplit in Hsorted.
  destruct (strongly_sorted_app _ _ _ Hsorted) as [Hsb Hcross].
  exists (map snd best). repeat split.
  - f_equal. f_equal. rewrite map_map.
    apply map_ext_in. intros p Hp. apply Hpair. apply Hbest. exact Hp.
  - pose proof (Permutation_length Hperm) as Hlen.
    rewrite enumerate_length in Hlen.
    rewrite length_map. unfold best. rewrite length_firstn. lia.
  - assert (Hnd : NoDup (map snd sorted)).
    { apply (Permutation_NoDup (l := map snd (enumerate values))).
      - apply Permutation_map. exact Hperm.
      - unfold enumerate. rewrite combine_seq_snd. apply seq_NoDup. }
    rewrite Hsplit, map_app in Hnd.
    apply NoDup_app_remove_r in Hnd. exact Hnd.
  - rewrite Forall_forall. intros i Hi.
    apply in_map_iff in Hi. destruct Hi as (p & <- & Hp).
    apply Hpair. apply Hbest. exact Hp.
  - apply (strongly_sorted_map before); [| exact Hsb].
    intros a b Ha Hb Hab. unfold before in Hab.
    destruct (Hpair a (Hbest a Ha)) as [_ <-].
    destruct (Hpair b (Hbest b Hb)) as [_ <-]. exact Hab.
  - intros i j Hi Hj Hnot.
    apply in_map_iff in Hi. destruct Hi as (p & <- & Hp).
    pose proof (nth_in_combine_seq values 0 d j Hj) as Hin.
    simpl in Hin. fold (enumerate values) in Hin.
    apply (Permutation_in _ Hperm) in Hin.
    rewrite Hsplit in Hin. apply in_app_or in Hin.
    destruct Hin as [Hin | Hin].
    + exfalso. apply Hnot. apply in_map_iff.
      exists (nth j values d, j). split; [reflexivity | exact Hin].
    + specialize (Hcross p _ Hp Hin). unfold before in Hcross.
      simpl in Hcross.
      destruct (Hpair p (Hbest p Hp)) as [_ <-]. exact Hcross.
Qed.

Lemma topk_out_of_range (values : list Q) (k : Z) :
  k < 0 \/ Z.of_nat (List.length values) < k ->
  topk values k = Raise (mkExn RuntimeError "selected index k out of range").
Proof.
  intros Hk. unfold topk.
  replace ((0 <=? k) && (k <=? Z.of_nat (List.length values))) with false;
    [reflexivity |].
  symmetry. apply andb_false_iff.
  destruct Hk as [Hk | Hk]; [left | right]; apply Z.leb_gt; exact Hk.
Qed.

End TopkFacts.

(** ** The monad *)

Ltac run_monad :=
  unfold bind, ret, raise, lift, invoke, get_self, set_rag_data,
    set_rag_embeddings, try_except, try_except_class in *;
  simpl in *.

Section KeepsFacts.

Context {X : Type} (f : LLMQuestionAnswerer -> X).

Lemma keeps_ret {A} (a : A) : keeps f (ret a).
Proof. intros st. reflexivity. Qed.

Lemma keeps_raise {A} (e : exn) : keeps f (@raise A e).
Proof. intros st. reflexivity. Qed.

Lemma keeps_lift {A} (r : result A) : keeps f (lift r).
Proof. intros st. reflexivity. Qed.

Lemma keeps_get_self : keeps f get_self.
Proof. intros st. reflexivity. Qed.

Lemma keeps_invoke {A} (c : call) (g : trace -> result A) :
  keeps f (invoke c g).
Proof. intros st. reflexivity. Qed.

Lemma keeps_bind {A B} (m : M A) (k : A -> M B) :
  keeps f m -> (forall a, keeps f (k a)) -> keeps f (bind m k).
Proof.
  intros Hm Hk st. unfold bind.
  specialize (Hm st). destruct (m st) as [[a | e] st1]; simpl in *.
  - rewrite Hk. exact Hm.
  - exact Hm.
Qed.

Lemma keeps_try_except {A} (m : M A) (h : exn -> M A) :
  keeps f m -> (forall e, keeps f (h e)) -> keeps f (try_except m h).
Proof.
  intros Hm Hh st. unfold try_except.
  specialize (Hm st). destruct (m st) as [[a | e] st1]; simpl in *.
  - exact Hm.
  - rewrite Hh. exact Hm.
Qed.

Lemma keeps_try_except_class {A} (cls : exn_class) (m h : M A) :
  keeps f m -> keeps f h -> keeps f (try_except_class cls m h).
Proof.
  intros Hm Hh st. unfold try_except_class.
  specialize (Hm st). destruct (m st) as [[a | e] st1]; simpl in *.
  - exact Hm.
  - destruct (exn_class_eqb (exn_kind e) cls); simpl.
    + rewrite Hh. exact Hm.
    + exact Hm.
Qed.

Lemma keeps_mapM {A B} (g : A -> M B) (l : list A) :
  (forall x, keeps f (g x)) -> keeps f (mapM g l).
Proof.
  intros Hg. induction l as [| x l IH]; simpl.
  - apply keeps_ret.
  - apply keeps_bind; [apply Hg |]. intros y.
    apply keeps_bind; [exact IH |]. intros ys. apply keeps_ret.
Qed.

Lemma keeps_if {A} (b : bool) (m1 m2 : M A) :
  keeps f m1 -> keeps f m2 -> keeps f (if b then m1 else m2).
Proof. destruct b; auto. Qed.

End KeepsFacts.

Create HintDb keeps.

#[local] Hint Resolve keeps_ret keeps_raise keeps_lift keeps_get_self
  keeps_invoke keeps_bind keeps_try_except keeps_try_except_class
  keeps_mapM keeps_if : keeps.

Section ReadOnlyMethods.

Variable C : Collaborators.
Context {X : Type} (f : LLMQuestionAnswerer -> X).

Lemma keeps_first_row (outputs : list (list Z)) : keeps f (first_row outputs).
Proof. destruct outputs; simpl; auto with keeps. Qed.

Lemma keeps_tokenize texts padding : keeps f (tokenize C texts padding).
Proof. unfold tokenize. auto with keeps. Qed.

Lemma keeps_decode ids : keeps f (decode C ids).
Proof. unfold decode. auto with keeps. Qed.

Lemma keeps_generate inputs max_length :
  keeps f (generate C inputs max_length).
Proof. unfold generate. auto 6 with keeps. Qed.

Ltac keeps_step :=
  first [ apply keeps_tokenize | apply keeps_generate | apply keeps_first_row
        | apply keeps_decode | apply keeps_ret | apply keeps_lift
        | apply keeps_get_self | apply keeps_bind; [| intros ?] ].

Lemma keeps_generation_steps full_prompt max_length :
  keeps f (generation_steps C full_prompt max_length).
Proof.
  unfold generation_steps. repeat keeps_step.
Qed.

Lemma keeps_summarize_chunk max_length chunk :
  keeps f (summarize_chunk C max_length chunk).
Proof. apply keeps_generation_steps. Qed.

Lemma keeps_get_embedding text : keeps f (get_embedding C text).
Proof.
  unfold get_embedding.
  apply keeps_bind; [apply keeps_tokenize | intros inputs].
  auto 8 with keeps.
Qed.

Lemma keeps_rag_data_at i : keeps f (rag_data_at i).
Proof.
  unfold rag_data_at. apply keeps_bind; [apply keeps_get_self | intros s].
  destruct (nth_error (rag_data s) i); auto with keeps.
Qed.

Lemma keeps_get_relevant_context question :
  keeps f (get_relevant_context C question).
Proof.
  unfold get_relevant_context.
  apply keeps_bind; [apply keeps_get_self | intros s].
  destruct (rag_embeddings s); [| apply keeps_ret].
  apply keeps_bind; [apply keeps_get_embedding | intros q].
  apply keeps_bind; [apply keeps_lift | intros sims].
  apply keeps_bind; [apply keeps_get_self | intros s1].
  apply keeps_bind; [apply keeps_lift | intros top].
  apply keeps_bind; [| intros chunks; apply keeps_ret].
  apply keeps_mapM. apply keeps_rag_data_at.
Qed.

Lemma keeps_generate_structured_output prompt output_structure max_length :
  keeps f (generate_structured_output C prompt output_structure max_length).
Proof.
  unfold generate_structured_output.
  apply keeps_bind; [apply keeps_lift | intros rendering].
  apply keeps_try_except; [| intros e; apply keeps_ret].
  repeat keeps_step.
  apply keeps_try_except_class; repeat keeps_step.
Qed.

Lemma keeps_answer_prompt full_prompt max_length output_structure :
  keeps f (answer_prompt C full_prompt max_length output_structure).
Proof.
  unfold answer_prompt. apply keeps_if.
  - apply keeps_generate_structured_output.
  - apply keeps_try_except; [| intros e; apply keeps_ret].
    repeat keeps_step.
Qed.

Lemma keeps_answer_question prompt use_rag max_length output_structure :
  keeps f (answer_question C prompt use_rag max_length output_structure).
Proof.
  unfold answer_question.
  apply keeps_bind; [| intros full; apply keeps_answer_prompt].
  apply keeps_if; [| apply keeps_ret].
  apply keeps_bind; [apply keeps_get_relevant_context |].
  intros ctx. apply keeps_ret.
Qed.

End ReadOnlyMethods.

(** ** add_rag_data *)

Section AddFacts.

Variable C : Collaborators.

Lemma get_embedding_self text st :
  self (snd (get_embedding C text st)) = self st.
Proof. apply (keeps_get_embedding C (fun s => s)). Qed.

Lemma mapM_summarize_self chunks st :
  self (snd (mapM (summarize_chunk C 100) chunks st)) = self st.
Proof.
  apply (keeps_mapM (fun s => s)). intros x.
  apply keeps_summarize_chunk.
Qed.

Lemma get_embedding_rows texts st t st1 :
  batch_faithful C ->
  get_embedding C (TList texts) st = (Ok t, st1) ->
  List.length t = List.length texts.
Proof.
  intros (Htok & Henc & Hfwd). unfold get_embedding, tokenize.
  run_monad.
  destruct (tokenizer_call C (calls st) texts true) as [inputs | e] eqn:Et;
    [| discriminate].
  apply Htok in Et.
  destruct (String.eqb (model_type (self st)) "seq2seq"); simpl.
  - destruct (model_encoder C _ inputs) as [h | e] eqn:Eh; [| discriminate].
    apply Henc in Eh. intros H. inversion H; subst.
    rewrite length_map. congruence.
  - destruct (model_forward C _ inputs) as [h | e] eqn:Eh; [| discriminate].
    apply Hfwd in Eh. intros H. inversion H; subst.
    rewrite length_map. congruence.
Qed.

(** The texts [add_rag_data] stores: the chunks, or their summaries. *)
Lemma add_rag_data_unfold documents use_summaries st :
  add_rag_data C documents use_summaries st =
  let all_chunks := flat_map (split_document C (self st)) documents in
  match
    (if use_summaries
     then mapM (summarize_chunk C 100) all_chunks st
     else (Ok all_chunks, st))
  with
  | (Raise e, st1) => (Raise e, st1)
  | (Ok texts, st1) =>
      let s1 := self st1 in
      let extended :=
        mkState (mkSelf (model_name s1) (model_type s1)
                   (quest_ans_tokens_margin s1) (rag_data s1 ++ texts)
                   (rag_embeddings s1) (embedding_size s1)
                   (rag_k_nearest_neighbors s1))
                (calls st1) in
      match get_embedding C (TList texts) extended with
      | (Raise e, st2) => (Raise e, st2)
      | (Ok new_embeddings, st2) =>
          let s2 := self st2 in
          (Ok tt,
           mkState (mkSelf (model_name s2) (model_type s2)
                      (quest_ans_tokens_margin s2) (rag_data s2)
                      (Some (match rag_embeddings s2 with
                             | None => new_embeddings
                             | Some old => old ++ new_embeddings
                             end))
                      (embedding_size s2) (rag_k_nearest_neighbors s2))
                   (calls st2 ++
                    [PrintAdded (List.length all_chunks)
                       (List.length documents) (List.length (rag_data s2))]))
      end
  end.
Proof.
  unfold add_rag_data.
  unfold bind at 1. unfold get_self at 1. cbv zeta.
  unfold bind at 1.
  destruct use_summaries.
  - unfold bind at 1.
    destruct (mapM (summarize_chunk C 100) _ st) as [[texts | e] st1];
      [| reflexivity].
    unfold bind, get_self, set_rag_data. cbv beta iota zeta.
    destruct (get_embedding C (TList texts) _) as [[t | e] st2];
      [| reflexivity].
    unfold set_rag_embeddings, invoke, self, calls.
    destruct st2 as [s2 tr2]. destruct (rag_embeddings s2); reflexivity.
  - unfold bind, get_self, set_rag_data. cbv beta iota zeta.
    destruct (get_embedding C (TList _) _) as [[t | e] st2];
      [| reflexivity].
    unfold set_rag_embeddings, invoke, self, calls.
    destruct st2 as [s2 tr2]. destruct (rag_embeddings s2); reflexivity.
Qed.

Lemma add_rag_data_keeps_model_type documents use_summaries :
  keeps model_type (add_rag_data C documents use_summaries).
Proof.
  intros st. rewrite add_rag_data_unfold. cbv zeta.
  destruct use_summaries.
  - pose proof (mapM_summarize_self
                  (flat_map (split_document C (self st)) documents) st) as H1.
    destruct (mapM _ _ st) as [[texts | e] st1]; simpl in H1;
      [| rewrite <- H1; reflexivity].
    match goal with
    | |- context [get_embedding C ?t ?x] =>
        pose proof (get_embedding_self t x) as H2;
        destruct (get_embedding C t x) as [[new | e] st2]
    end; simpl in *; rewrite H2; simpl; rewrite H1; reflexivity.
  - match goal with
    | |- context [get_embedding C ?t ?x] =>
        pose proof (get_embedding_self t x) as H2;
        destruct (get_embedding C t x) as [[new | e] st2]
    end; simpl in *; rewrite H2; reflexivity.
Qed.

(** A failed call never touches [rag_embeddings]. *)
Lemma add_rag_data_raise_keeps_embeddings documents use_summaries st e st1 :
  add_rag_data C documents use_summaries st = (Raise e, st1) ->
  rag_embeddings (self st1) = rag_embeddings (self st).
Proof.
  rewrite add_rag_data_unfold. cbv zeta.
  destruct use_summaries.
  - pose proof (mapM_summarize_self
                  (flat_map (split_document C (self st)) documents) st) as H1.
    destruct (mapM _ _ st) as [[texts | e1] st0]; simpl in H1.
    + match goal with
      | |- context [get_embedding C ?t ?x] =>
          pose proof (get_embedding_self t x) as H2;
          destruct (get_embedding C t x) as [[new | e2] st2]
      end; simpl in *; intros H; inversion H; subst.
      rewrite H2. simpl. rewrite H1. reflexivity.
    + intros H; inversion H; subst. rewrite H1. reflexivity.
  - match goal with
    | |- context [get_embedding C ?t ?x] =>
        pose proof (get_embedding_self t x) as H2;
        destruct (get_embedding C t x) as [[new | e2] st2]
    end; simpl in *; intros H; inversion H; subst.
    rewrite H2. reflexivity.
Qed.

(** A call that returns keeps the store invariant, when the embedder gives
    one row per text. *)
Lemma add_rag_data_ok_store documents use_summaries st st1 :
  batch_faithful C ->
  store_ok (self st) ->
  add_rag_data C documents use_summaries st = (Ok tt, st1) ->
  store_ok (self st1).
Proof.
  intros HC Hok. rewrite add_rag_data_unfold. cbv zeta.
  assert (Hgen : forall texts st0,
    self st0 = self st ->
    match
      get_embedding C (TList texts)
        (mkState (mkSelf (model_name (self st0)) (model_type (self st0))
                    (quest_ans_tokens_margin (self st0))
                    (rag_data (self st0) ++ texts)
                    (rag_embeddings (self st0)) (embedding_size (self st0))
                    (rag_k_nearest_neighbors (self st0)))
                 (calls st0))
    with
    | (Raise e, st2) => (Raise e, st2)
    | (Ok new_embeddings, st2) =>
        (Ok tt,
         mkState (mkSelf (model_name (self st2)) (model_type (self st2))
                    (quest_ans_tokens_margin (self st2)) (rag_data (self st2))
                    (Some (match rag_embeddings (self st2) with
                           | None => new_embeddings
                           | Some old => old ++ new_embeddings
                           end))
                    (embedding_size (self st2))
                    (rag_k_nearest_neighbors (self st2)))
                 (calls st2 ++
                  [PrintAdded
                     (List.length
                        (flat_map (split_document C (self st)) documents))
                     (List.length documents)
                     (List.length (rag_data (self st2)))]))
    end = (Ok tt, st1) -> store_ok (self st1)).
  { intros texts st0 Hself.
    match goal with
    | |- context [get_embedding C ?t ?x] =>
        pose proof (get_embedding_self t x) as H2;
        pose proof (get_embedding_rows texts x) as H3;
        destruct (get_embedding C t x) as [[new | e2] st2]
    end; [| discriminate].
    specialize (H3 new st2 HC eq_refl). simpl in H2.
    intros H. inversion H; subst. clear H.
    unfold store_ok in *. simpl. rewrite H2. simpl. rewrite Hself.
    rewrite length_app.
    destruct (rag_embeddings (self st)) as [old |]; simpl in *.
    - rewrite length_app. lia.
    - lia. }
  destruct use_summaries.
  - pose proof (mapM_summarize_self
                  (flat_map (split_document C (self st)) documents) st) as H1.
    destruct (mapM _ _ st) as [[texts | e1] st0]; simpl in H1;
      [| discriminate].
    apply Hgen. exact H1.
  - apply (Hgen _ st). reflexivity.
Qed.

(** A fault while summarizing leaves the store as it was. *)
Lemma add_rag_data_summary_fault documents st e st1 :
  mapM (summarize_chunk C 100)
       (flat_map (split_document C (self st)) documents) st = (Raise e, st1) ->
  add_rag_data C documents true st = (Raise e, st1) /\ self st1 = self st.
Proof.
  intros H. rewrite add_rag_data_unfold. cbv zeta. rewrite H.
  split; [reflexivity |].
  pose proof (mapM_summarize_self
                (flat_map (split_document C (self st)) documents) st) as H1.
  rewrite H in H1. exact H1.
Qed.

(** A fault while embedding comes after the texts were stored: the call
    fails with [rag_data] longer and [rag_embeddings] as before. *)
Lemma add_rag_data_embedding_fault documents st e st1 :
  let all_chunks := flat_map (split_document C (self st)) documents in
  get_embedding C (TList all_chunks)
    (snd (set_rag_data (rag_data (self st) ++ all_chunks) st))
  = (Raise e, st1) ->
  add_rag_data C documents false st = (Raise e, st1) /\
  rag_data (self st1) = rag_data (self st) ++ all_chunks /\
  rag_embeddings (self st1) = rag_embeddings (self st).
Proof.
  intros all_chunks H. rewrite add_rag_data_unfold. cbv zeta.
  unfold set_rag_data in H. simpl in H. fold all_chunks.
  pose proof (get_embedding_self (TList all_chunks)
    (mkState (mkSelf (model_name (self st)) (model_type (self st))
                (quest_ans_tokens_margin (self st))
                (rag_data (self st) ++ all_chunks)
                (rag_embeddings (self st)) (embedding_size (self st))
                (rag_k_nearest_neighbors (self st)))
             (calls st))) as H2.
  rewrite H in *. simpl in H2. rewrite H2. simpl. auto.
Qed.

(** The same with summaries: they are stored before they are embedded. *)
Lemma add_rag_data_summaries_embedding_fault documents st summaries st0 e st1 :
  mapM (summarize_chunk C 100)
       (flat_map (split_document C (self st)) documents) st
  = (Ok summaries, st0) ->
  get_embedding C (TList summaries)
    (snd (set_rag_data (rag_data (self st0) ++ summaries) st0))
  = (Raise e, st1) ->
  add_rag_data C documents true st = (Raise e, st1) /\
  rag_data (self st1) = rag_data (self st) ++ summaries /\
  rag_embeddings (self st1) = rag_embeddings (self st).
Proof.
  intros Hsum H. rewrite add_rag_data_unfold. cbv zeta. rewrite Hsum.
  pose proof (mapM_summarize_self
                (flat_map (split_document C (self st)) documents) st) as H1.
  rewrite Hsum in H1. simpl in H1.
  unfold set_rag_data in H. simpl in H.
  pose proof (get_embedding_self (TList summaries)
    (mkState (mkSelf (model_name (self st0)) (model_type (self st0))
                (quest_ans_tokens_margin (self st0))
                (rag_data (self st0) ++ summaries)
                (rag_embeddings (self st0)) (embedding_size (self st0))
                (rag_k_nearest_neighbors (self st0)))
             (calls st0))) as H2.
  rewrite H in *. simpl in H2. rewrite H2. simpl. rewrite H1. auto.
Qed.

Lemma longer_store_not_ok (s s1 : LLMQuestionAnswerer) (texts : list string) :
  store_ok s ->
  rag_data s1 = rag_data s ++ texts ->
  rag_embeddings s1 = rag_embeddings s ->
  texts <> [] ->
  ~ store_ok s1.
Proof.
  unfold store_ok. intros Hok Hdata Hrows Hne Hok1.
  rewrite Hdata, Hrows, length_app in Hok1.
  destruct texts; [congruence | simpl in Hok1; lia].
Qed.

(** Over any sequence of calls that all return, the invariant holds at the
    end. *)
Lemma run_adds_ok_store adds st :
  batch_faithful C ->
  store_ok (self st) ->
  Forall (fun r => r = Ok tt) (fst (run_adds C adds st)) ->
  store_ok (self (snd (run_adds C adds st))).
Proof.
  intros HC. revert st.
  induction adds as [| [documents use_summaries] rest IH]; intros st Hok Hall.
  - exact Hok.
  - simpl in *.
    destruct (add_rag_data C documents use_summaries st) as [r st1] eqn:E.
    specialize (IH st1).
    destruct (run_adds C rest st1) as [rs st2]. simpl in *.
    inversion Hall as [| ? ? Hr Hrs]; subst.
    apply IH; [| exact Hrs].
    eapply add_rag_data_ok_store; eauto.
Qed.

(** X23: what [add_rag_data] does to the store invariant.  With an
    embedder that gives one row per text, and from a store that has one
    embedding row per text, every sequence of calls that all return ends in
    such a store.  A call that raises does not roll back: it leaves
    [rag_embeddings] as it was; when the fault is in summarizing, it leaves
    the whole object as it was; when the fault is in embedding, the texts of
    the batch, chunks or summaries, are already in [rag_data], and if there
    is at least one the store is left with more texts than rows. *)
Theorem add_rag_data_store_invariant :
  forall st : state,
    batch_faithful C ->
    store_ok (self st) ->
    (forall adds,
        Forall (fun r => r = Ok tt) (fst (run_adds C adds st)) ->
        store_ok (self (snd (run_adds C adds st)))) /\
    (forall documents use_summaries e st1,
        add_rag_data C documents use_summaries st = (Raise e, st1) ->
        rag_embeddings (self st1) = rag_embeddings (self st)) /\
    (forall documents e st1,
        mapM (summarize_chunk C 100)
             (flat_map (split_document C (self st)) documents) st
        = (Raise e, st1) ->
        add_rag_data C documents true st = (Raise e, st1) /\
        self st1 = self st) /\
    (forall documents e st1,
        get_embedding C
          (TList (flat_map (split_document C (self st)) documents))
          (snd (set_rag_data
                  (rag_data (self st) ++
                   flat_map (split_document C (self st)) documents) st))
        = (Raise e, st1) ->
        add_rag_data C documents false st = (Raise e, st1) /\
        rag_data (self st1) =
        rag_data (self st) ++ flat_map (split_document C (self st)) documents
        /\
        (flat_map (split_document C (self st)) documents <> [] ->
         ~ store_ok (self st1))) /\
    (forall documents summaries st0 e st1,
        mapM (summarize_chunk C 100)
             (flat_map (split_document C (self st)) documents) st
        = (Ok summaries, st0) ->
        get_embedding C (TList summaries)
          (snd (set_rag_data (rag_data (self st0) ++ summaries) st0))
        = (Raise e, st1) ->
        add_rag_data C documents true st = (Raise e, st1) /\
        rag_data (self st1) = rag_data (self st) ++ summaries /\
        (summaries <> [] -> ~ store_ok (self st1))).
Proof.
  intros st HC Hok. split; [| split; [| split; [| split]]].
  - intros adds Hall. apply run_adds_ok_store; assumption.
  - intros documents use_summaries e st1 H.
    eapply add_rag_data_raise_keeps_embeddings. exact H.
  - intros documents e st1 H. apply add_rag_data_summary_fault. exact H.
  - intros documents e st1 H.
    destruct (add_rag_data_embedding_fault documents st e st1 H)
      as (Hrun & Hdata & Hrows).
    split; [exact Hrun |]. split; [exact Hdata |].
    intros Hne. eapply longer_store_not_ok; eassumption.
  - intros documents summaries st0 e st1 Hsum H.
    destruct (add_rag_data_summaries_embedding_fault documents st summaries
                st0 e st1 Hsum H) as (Hrun & Hdata & Hrows).
    split; [exact Hrun |]. split; [exact Hdata |].
    intros Hne. eapply longer_store_not_ok; eassumption.
Qed.

End AddFacts.

(** ** get_relevant_context *)

Section ContextFacts.

Variable C : Collaborators.

Lemma mapM_rag_data_at (indices : list nat) st :
  Forall (fun i => (i < List.length (rag_data (self st)))%nat) indices ->
  mapM rag_data_at indices st =
  (Ok (map (fun i => nth i (rag_data (self st)) EmptyString) indices), st).
Proof.
  induction indices as [| i l IH]; intros H; simpl.
  - reflexivity.
  - inversion H as [| ? ? Hi Hl]; subst.
    unfold bind at 1. unfold rag_data_at at 1.
    unfold bind at 1. unfold get_self at 1.
    destruct (nth_error (rag_data (self st)) i) as [chunk |] eqn:E.
    + unfold ret at 1. unfold bind at 1. rewrite (IH Hl). unfold ret.
      rewrite (nth_error_nth _ _ _ E). reflexivity.
    + apply nth_error_None in E. lia.
Qed.

(** The query once the question is embedded as one vector: the similarities
    go to [topk], and the texts at the positions it gives are joined. *)
Lemma get_relevant_context_run question st embeddings q st1 :
  rag_embeddings (self st) = Some embeddings ->
  get_embedding C (TStr question) st = (Ok [q], st1) ->
  get_relevant_context C question st =
  match topk (map (cosine C q) embeddings) (rag_k_nearest_neighbors (self st))
  with
  | Raise e => (Raise e, st1)
  | Ok top =>
      match mapM rag_data_at (snd top) st1 with
      | (Ok relevant_chunks, st2) =>
          (Ok (String.concat " " relevant_chunks), st2)
      | (Raise e, st2) => (Raise e, st2)
      end
  end.
Proof.
  intros Hemb Hq.
  pose proof (get_embedding_self C (TStr question) st) as Hself.
  rewrite Hq in Hself. simpl in Hself.
  unfold get_relevant_context.
  unfold bind at 1. unfold get_self at 1. rewrite Hemb.
  unfold bind at 1. rewrite Hq.
  unfold bind at 1. unfold lift at 1. unfold cosine_similarity.
  unfold bind at 1. unfold get_self at 1.
  unfold bind at 1. unfold lift at 1.
  rewrite Hself.
  destruct (topk _ _) as [top | e]; [| reflexivity].
  unfold bind.
  destruct (mapM rag_data_at (snd top) st1) as [[chunks | e] st2];
    reflexivity.
Qed.

(** With k within the store size: k distinct positions, and their texts. *)
Lemma get_relevant_context_in_range question st embeddings q st1 :
  rag_embeddings (self st) = Some embeddings ->
  store_ok (self st) ->
  0 <= rag_k_nearest_neighbors (self st)
    <= Z.of_nat (List.length embeddings) ->
  get_embedding C (TStr question) st = (Ok [q], st1) ->
  exists indices : list nat,
    topk (map (cosine C q) embeddings) (rag_k_nearest_neighbors (self st)) =
    Ok (map (fun i => nth i (map (cosine C q) embeddings) (cosine C q []))
            indices, indices) /\
    get_relevant_context C question st =
    (Ok (String.concat " "
           (map (fun i => nth i (rag_data (self st)) EmptyString) indices)),
     st1) /\
    Z.of_nat (List.length indices) = rag_k_nearest_neighbors (self st) /\
    NoDup indices /\
    Forall (fun i => (i < List.length embeddings)%nat) indices.
Proof.
  intros Hemb Hok Hk Hq.
  pose proof (get_embedding_self C (TStr question) st) as Hself.
  rewrite Hq in Hself. simpl in Hself.
  unfold store_ok in Hok. rewrite Hemb in Hok. simpl in Hok.
  destruct (topk_spec (map (cosine C q) embeddings)
              (rag_k_nearest_neighbors (self st)) (cosine C q []))
    as (indices & Htop & Hcount & Hnd & Hin & _).
  { rewrite length_map. exact Hk. }
  rewrite length_map in Hin.
  exists indices.
  split; [exact Htop |]. split; [| auto].
  rewrite (get_relevant_context_run question st embeddings q st1 Hemb Hq).
  rewrite Htop. simpl snd.
  rewrite mapM_rag_data_at.
  - rewrite Hself. reflexivity.
  - rewrite Hself, Hok. exact Hin.
Qed.

(** C2, as amended: k is not clamped.  On a store with embeddings, one per
    text, and a question embedded as one vector: if the store holds fewer
    rows than k, [get_relevant_context] raises the error of [topk]; and
    whenever it returns, it returns the join of exactly k texts at distinct
    positions of the store, with k at most the store size, so never more
    chunks than are stored. *)
Theorem get_relevant_context_k_not_clamped :
  forall (question : string) (st st1 : state) (embeddings : tensor) (q : vec),
    rag_embeddings (self st) = Some embeddings ->
    store_ok (self st) ->
    get_embedding C (TStr question) st = (Ok [q], st1) ->
    let k := rag_k_nearest_neighbors (self st) in
    let n := List.length (rag_data (self st)) in
    (Z.of_nat n < k ->
     get_relevant_context C question st =
     (Raise (mkExn RuntimeError "selected index k out of range"), st1)) /\
    (forall text st2,
        get_relevant_context C question st = (Ok text, st2) ->
        exists indices : list nat,
          text =
          String.concat " "
            (map (fun i => nth i (rag_data (self st)) EmptyString) indices) /\
          Z.of_nat (List.length indices) = k /\
          (List.length indices <= n)%nat /\
          NoDup indices /\
          Forall (fun i => (i < n)%nat) indices).
Proof.
  intros question st st1 embeddings q Hemb Hok Hq k n.
  assert (Hn : n = List.length embeddings).
  { unfold n. unfold store_ok in Hok. rewrite Hemb in Hok. exact Hok. }
  split.
  - intros Hsmall.
    rewrite (get_relevant_context_run question st embeddings q st1 Hemb Hq).
    rewrite topk_out_of_range; [reflexivity |].
    right. rewrite length_map, <- Hn. exact Hsmall.
  - intros text st2 Hrun.
    destruct (Z_lt_ge_dec k 0) as [Hneg | Hpos].
    { rewrite (get_relevant_context_run question st embeddings q st1 Hemb Hq)
        in Hrun.
      rewrite topk_out_of_range in Hrun by (left; exact Hneg).
      discriminate. }
    destruct (Z_lt_ge_dec (Z.of_nat n) k) as [Hbig | Hfit].
    { rewrite (get_relevant_context_run question st embeddings q st1 Hemb Hq)
        in Hrun.
      rewrite topk_out_of_range in Hrun
        by (right; rewrite length_map, <- Hn; exact Hbig).
      discriminate. }
    destruct (get_relevant_context_in_range question st embeddings q st1
                Hemb Hok) as (indices & _ & Hctx & Hcount & Hnd & Hin).
    { fold k. rewrite <- Hn. lia. }
    { exact Hq. }
    rewrite Hctx in Hrun. inversion Hrun; subst text st2.
    exists indices. fold k in Hcount. rewrite <- Hn in Hin.
    repeat split; try assumption. lia.
Qed.

(** X24: retrieval on an aligned store.  On a store of n texts with one
    embedding row each, as any sequence of returning adds leaves it, and with
    0 <= k <= n for k = [rag_k_nearest_neighbors], a query whose question is
    embedded as the vector [q] returns the join, with single spaces, of the
    texts at k distinct positions; the positions come in descending order of
    cosine similarity to [q], and no position left out has a larger
    similarity than one that was taken. *)
Theorem get_relevant_context_top_k :
  forall (question : string) (st st1 : state) (embeddings : tensor) (q : vec),
    rag_embeddings (self st) = Some embeddings ->
    store_ok (self st) ->
    0 <= rag_k_nearest_neighbors (self st)
      <= Z.of_nat (List.length embeddings) ->
    get_embedding C (TStr question) st = (Ok [q], st1) ->
    let similarity i := cosine C q (nth i embeddings []) in
    exists indices : list nat,
      get_relevant_context C question st =
      (Ok (String.concat " "
             (map (fun i => nth i (rag_data (self st)) EmptyString) indices)),
       st1) /\
      Z.of_nat (List.length indices) = rag_k_nearest_neighbors (self st) /\
      NoDup indices /\
      Forall (fun i => (i < List.length embeddings)%nat) indices /\
      StronglySorted (fun i j => (similarity j <= similarity i)%Q) indices /\
      (forall i j,
          In i indices -> (j < List.length embeddings)%nat ->
          ~ In j indices -> (similarity j <= similarity i)%Q).
Proof.
  intros question st st1 embeddings q Hemb Hok Hk Hq similarity.
  set (values := map (cosine C q) embeddings).
  assert (Hlen : List.length values = List.length embeddings)
    by apply length_map.
  assert (Hval : forall i, nth i values (cosine C q []) = similarity i).
  { intros i. unfold values, similarity. apply map_nth. }
  destruct (get_relevant_context_in_range question st embeddings q st1
              Hemb Hok Hk Hq) as (indices & Htop & Hctx & Hcount & Hnd & Hin).
  fold values in Htop.
  destruct (topk_spec values (rag_k_nearest_neighbors (self st))
              (cosine C q []))
    as (indices' & Htop' & _ & _ & _ & Hsorted & Hbest).
  { rewrite Hlen. exact Hk. }
  assert (Hsame : indices' = indices) by congruence.
  subst indices'. rewrite Hlen in Hbest.
  exists indices.
  split; [exact Hctx |]. split; [exact Hcount |].
  split; [exact Hnd |]. split; [exact Hin |]. split.
  - eapply (strongly_sorted_map _ _ (fun i => i)) in Hsorted.
    + rewrite map_id in Hsorted. exact Hsorted.
    + intros a b _ _ Hab. simpl. rewrite <- !Hval. exact Hab.
  - intros i j Hi Hj Hnot. rewrite <- !Hval. apply Hbest; assumption.
Qed.

End ContextFacts.

(** ** Runs on concrete collaborators: the store *)

Lemma toy_batch_faithful : batch_faithful Toy.collaborators.
Proof.
  unfold batch_faithful, Toy.collaborators, Toy.make; simpl.
  unfold Toy.tokenizer_ok, Toy.encoder_ok, Toy.hidden.
  repeat split; intros; match goal with
                        | H : Ok _ = Ok _ |- _ => inversion H; subst
                        end; apply length_map.
Qed.

(** C1: no rollback at an embedding fault.  On a freshly constructed
    object whose encoder runs out of memory, [add_rag_data] of four
    one-sentence documents raises, and by then [rag_data] holds the four
    chunks while [rag_embeddings] is still [None]: the texts were committed,
    and the store invariant is broken.  With [use_summaries] it is the four
    summaries that were committed. *)
Lemma add_rag_data_embedding_fault_commits_texts :
  let C := Toy.failing_encoder in
  let run := add_rag_data C Toy.four_documents false Toy.fresh in
  let run' := add_rag_data C Toy.four_documents true Toy.fresh in
  fst (init C "google/flan-t5-base" "seq2seq" 100 []) = Ok (self Toy.fresh) /\
  store_ok (self Toy.fresh) /\
  fst run = Raise Toy.out_of_memory /\
  rag_data (self (snd run)) = ["A."; "B."; "C."; "D."] /\
  rag_embeddings (self (snd run)) = None /\
  ~ store_ok (self (snd run)) /\
  fst run' = Raise Toy.out_of_memory /\
  rag_data (self (snd run')) = ["ok"; "ok"; "ok"; "ok"] /\
  rag_embeddings (self (snd run')) = None /\
  ~ store_ok (self (snd run')).
Proof.
  cbv zeta.
  repeat match goal with
         | |- _ /\ _ => split
         end;
    try (vm_compute; reflexivity);
    unfold store_ok; vm_compute; discriminate.
Qed.

(** C3: a query on the store a failed add left behind.  The encoder is out
    of memory on the first add, of "A." to "D.", and serves the second, of
    "W." to "Z.".  The store then holds eight texts and four rows, the rows
    of "W." to "Z.".  With k = 3 the query "Z?" finds the rows of "Z.", "Y."
    and "X." closest and returns the texts at their positions, which are
    "D. C. B."; the same query on a store that took "W." to "Z." alone
    returns "Z. Y. X.". *)
Lemma get_relevant_context_after_failed_add :
  let C := recovering_encoder in
  let first := add_rag_data C ["A."; "B."; "C."; "D."] false Toy.fresh in
  let second := add_rag_data C ["W."; "X."; "Y."; "Z."] false (snd first) in
  let st := snd second in
  let aligned := Toy.stocked Toy.collaborators ["W."; "X."; "Y."; "Z."] in
  fst first = Raise Toy.out_of_memory /\
  fst second = Ok tt /\
  rag_data (self st) = ["A."; "B."; "C."; "D."; "W."; "X."; "Y."; "Z."] /\
  rag_embeddings (self st) = rag_embeddings (self aligned) /\
  rows (rag_embeddings (self st)) = 4%nat /\
  option_map Ok (rag_embeddings (self st)) =
  Some (fst (get_embedding C (TList ["W."; "X."; "Y."; "Z."]) st)) /\
  rag_k_nearest_neighbors (self st) = 3 /\
  fst (get_relevant_context C "Z?" st) = Ok "D. C. B." /\
  rag_data (self aligned) = ["W."; "X."; "Y."; "Z."] /\
  fst (get_relevant_context Toy.collaborators "Z?" aligned) = Ok "Z. Y. X.".
Proof.
  cbv zeta.
  repeat match goal with
         | |- _ /\ _ => split
         end;
    vm_compute; reflexivity.
Qed.

(** Two adds that return, one of raw chunks and one of summaries, leave one
    row per text. *)
Lemma add_rag_data_store_invariant_witness :
  let adds := [(Toy.four_documents, false); (["E. F."; "G."], true)] in
  fst (run_adds Toy.collaborators adds Toy.fresh) = [Ok tt; Ok tt] /\
  store_ok (self (snd (run_adds Toy.collaborators adds Toy.fresh))).
Proof.
  cbv zeta. split; [vm_compute; reflexivity |].
  destruct (add_rag_data_store_invariant Toy.collaborators Toy.fresh
              toy_batch_faithful eq_refl) as [H _].
  apply H. vm_compute. repeat constructor.
Defined.

(** C2, no clamping for a store smaller than k.  After one
    one-sentence document went in, the store holds one chunk and one row,
    k is 3, and [get_relevant_context] raises the error of [topk]. *)
Lemma get_relevant_context_small_store_raises :
  let C := Toy.collaborators in
  let st := Toy.stocked C ["A."] in
  rag_data (self st) = ["A."] /\
  rows (rag_embeddings (self st)) = 1%nat /\
  rag_k_nearest_neighbors (self st) = 3 /\
  fst (get_relevant_context C "B." st) =
  Raise (mkExn RuntimeError "selected index k out of range").
Proof.
  cbv zeta. repeat split; vm_compute; reflexivity.
Qed.

(** On a store of four chunks the query returns three of them; on a store
    of one chunk it raises. *)
Lemma get_relevant_context_k_not_clamped_witness :
  let C := Toy.collaborators in
  let st := Toy.stocked C Toy.four_documents in
  (fst (get_relevant_context C "B?" st) = Ok "D. C. B." /\
   exists indices : list nat,
     "D. C. B." =
     String.concat " "
       (map (fun i => nth i (rag_data (self st)) EmptyString) indices) /\
     Z.of_nat (List.length indices) = 3 /\
     (List.length indices <= 4)%nat) /\
  fst (get_relevant_context C "B?" (Toy.stocked C ["A."])) =
  Raise (mkExn RuntimeError "selected index k out of range").
Proof.
  cbv zeta. split; [split; [vm_compute; reflexivity |] |].
  - edestruct (get_relevant_context_k_not_clamped Toy.collaborators "B?"
                 (Toy.stocked Toy.collaborators Toy.four_documents))
      as [_ H].
    + vm_compute. reflexivity.
    + vm_compute. reflexivity.
    + vm_compute. reflexivity.
    + destruct (H "D. C. B."
                  (snd (get_relevant_context Toy.collaborators "B?"
                          (Toy.stocked Toy.collaborators Toy.four_documents))))
        as (indices & Htext & Hcount & Hle & _).
      * vm_compute. reflexivity.
      * exists indices. split; [exact Htext |]. split; assumption.
  - edestruct (get_relevant_context_k_not_clamped Toy.collaborators "B?"
                 (Toy.stocked Toy.collaborators ["A."]))
      as [H _].
    + vm_compute. reflexivity.
    + vm_compute. reflexivity.
    + vm_compute. reflexivity.
    + rewrite H; [reflexivity | vm_compute; reflexivity].
Defined.

(** The run of [get_relevant_context_top_k] on a store of four chunks. *)
Lemma get_relevant_context_top_k_witness :
  let C := Toy.collaborators in
  let st := Toy.stocked C Toy.four_documents in
  store_ok (self st) /\
  0 <= rag_k_nearest_neighbors (self st) <= 4 /\
  exists indices : list nat,
    fst (get_relevant_context C "B?" st) =
    Ok (String.concat " "
          (map (fun i => nth i (rag_data (self st)) EmptyString) indices)) /\
    Z.of_nat (List.length indices) = 3 /\
    NoDup indices.
Proof.
  cbv zeta.
  split; [vm_compute; reflexivity |].
  split; [vm_compute; split; discriminate |].
  edestruct (get_relevant_context_top_k Toy.collaborators "B?"
               (Toy.stocked Toy.collaborators Toy.four_documents))
    as (indices & Hrun & Hcount & Hnd & _).
  - vm_compute. reflexivity.
  - vm_compute. reflexivity.
  - vm_compute. split; discriminate.
  - vm_compute. reflexivity.
  - exists indices. rewrite Hrun. repeat split; assumption.
Defined.

(** ** The answer path *)

Section AnswerFacts.

Variable C : Collaborators.

Lemma generate_run inputs max_length st :
  generate C inputs max_length st =
  (model_generate C (calls st) inputs (length_cap (self st) inputs max_length),
   mkState (self st)
     (calls st ++
      [Generate inputs (length_cap (self st) inputs max_length)])).
Proof.
  unfold generate, length_cap, bind, get_self, invoke.
  destruct (String.eqb (model_type (self st)) "seq2seq"); reflexivity.
Qed.

Lemma generation_steps_tokenizer_fault full_prompt max_length st e :
  tokenizer_call C (calls st) [full_prompt] false = Raise e ->
  fst (generation_steps C full_prompt max_length st) = Raise e.
Proof.
  intros H. unfold generation_steps, tokenize.
  unfold bind at 1. unfold invoke at 1. rewrite H. reflexivity.
Qed.

Lemma generation_steps_generate_fault full_prompt max_length st inputs e :
  tokenizer_call C (calls st) [full_prompt] false = Ok inputs ->
  model_generate C (calls st ++ [TokenizerCall [full_prompt] false]) inputs
    (length_cap (self st) inputs max_length) = Raise e ->
  fst (generation_steps C full_prompt max_length st) = Raise e.
Proof.
  intros Ht Hg. unfold generation_steps, tokenize.
  unfold bind at 1. unfold invoke at 1. rewrite Ht.
  unfold bind at 1. rewrite generate_run. simpl. rewrite Hg. reflexivity.
Qed.

Lemma generation_steps_decode_fault
  full_prompt max_length st inputs row outputs e :
  tokenizer_call C (calls st) [full_prompt] false = Ok inputs ->
  model_generate C (calls st ++ [TokenizerCall [full_prompt] false]) inputs
    (length_cap (self st) inputs max_length) = Ok (row :: outputs) ->
  tokenizer_decode C
    (calls st ++ [TokenizerCall [full_prompt] false] ++
     [Generate inputs (length_cap (self st) inputs max_length)]) row
  = Raise e ->
  fst (generation_steps C full_prompt max_length st) = Raise e.
Proof.
  intros Ht Hg Hd. unfold generation_steps, tokenize.
  unfold bind at 1. unfold invoke at 1. rewrite Ht.
  unfold bind at 1. rewrite generate_run. simpl. rewrite Hg.
  unfold bind, first_row, ret, decode, invoke. simpl.
  rewrite <- app_assoc. simpl. simpl in Hd. rewrite Hd. reflexivity.
Qed.

(** [generate_structured_output], outcome by outcome: [json.dumps] runs
    first, outside the [try]. *)
Lemma generate_structured_output_unfold
  prompt output_structure max_length st :
  generate_structured_output C prompt output_structure max_length st =
  match json_dumps_indent2 C (PDict output_structure) with
  | Raise e => (Raise e, st)
  | Ok rendering =>
      match
        generation_steps C (structure_prompt prompt rendering) max_length st
      with
      | (Raise e, st1) => (Ok (error_record e), st1)
      | (Ok response, st1) =>
          match json_loads C response with
          | Ok j => (Ok j, st1)
          | Raise e =>
              if exn_class_eqb (exn_kind e) JSONDecodeError
              then (Ok (parse_failure response), st1)
              else (Ok (error_record e), st1)
          end
      end
  end.
Proof.
  unfold generate_structured_output.
  unfold bind at 1. unfold lift at 1.
  destruct (json_dumps_indent2 C (PDict output_structure)) as [rendering | e];
    [| reflexivity].
  unfold generation_steps, structure_prompt.
  unfold try_except.
  unfold bind at 1 5.
  destruct (tokenize C _ false st) as [[inputs | e] st1]; [| reflexivity].
  unfold bind at 1 4.
  destruct (generate C inputs max_length st1) as [[outputs | e] st2];
    [| reflexivity].
  unfold bind at 1 3.
  destruct (first_row outputs st2) as [[row | e] st3]; [| reflexivity].
  unfold bind at 1.
  destruct (decode C row st3) as [[response | e] st4]; [| reflexivity].
  unfold try_except_class, lift, ret, parse_failure.
  destruct (json_loads C response) as [j | e]; [reflexivity |].
  destruct (exn_class_eqb (exn_kind e) JSONDecodeError); reflexivity.
Qed.

(** A fault of [json.dumps] escapes, and nothing was called. *)
Lemma generate_structured_output_dumps_fault
  prompt output_structure max_length st e :
  json_dumps_indent2 C (PDict output_structure) = Raise e ->
  generate_structured_output C prompt output_structure max_length st =
  (Raise e, st).
Proof.
  intros H. rewrite generate_structured_output_unfold, H. reflexivity.
Qed.

Lemma generate_structured_output_returns
  prompt output_structure max_length st rendering :
  json_dumps_indent2 C (PDict output_structure) = Ok rendering ->
  exists j st1,
    generate_structured_output C prompt output_structure max_length st =
    (Ok j, st1).
Proof.
  intros H. rewrite generate_structured_output_unfold, H.
  destruct (generation_steps C _ max_length st) as [[response | e] st1];
    [| eauto].
  destruct (json_loads C response) as [j | e]; [eauto |].
  destruct (exn_class_eqb (exn_kind e) JSONDecodeError); eauto.
Qed.

(** The plain path of [answer_question], outcome by outcome. *)
Lemma answer_prompt_plain full_prompt max_length output_structure st :
  truthy output_structure = false ->
  answer_prompt C full_prompt max_length output_structure st =
  match generation_steps C full_prompt max_length st with
  | (Raise e, st1) => (Ok (error_text e), st1)
  | (Ok text, st1) => (Ok (JStr text), st1)
  end.
Proof.
  intros H. unfold answer_prompt. rewrite H.
  unfold generation_steps, try_except.
  unfold bind at 1 5.
  destruct (tokenize C _ false st) as [[inputs | e] st1]; [| reflexivity].
  unfold bind at 1 4.
  destruct (generate C inputs max_length st1) as [[outputs | e] st2];
    [| reflexivity].
  unfold bind at 1 3.
  destruct (first_row outputs st2) as [[row | e] st3]; [| reflexivity].
  unfold bind at 1.
  destruct (decode C row st3) as [[response | e] st4]; reflexivity.
Qed.

(** The structured path of [answer_question]: the value of
    [generate_structured_output], as it is. *)
Lemma answer_prompt_structured full_prompt max_length field fields st :
  answer_prompt C full_prompt max_length (Some (field :: fields)) st =
  generate_structured_output C full_prompt (field :: fields) max_length st.
Proof. reflexivity. Qed.

Lemma answer_prompt_returns full_prompt max_length output_structure st :
  serialisable C output_structure ->
  exists a st1,
    answer_prompt C full_prompt max_length output_structure st = (Ok a, st1).
Proof.
  intros Hser. destruct (truthy output_structure) eqn:E.
  - destruct (Hser E) as (rendering & Hdumps).
    unfold answer_prompt. rewrite E.
    apply (generate_structured_output_returns _ _ _ _ rendering Hdumps).
  - rewrite answer_prompt_plain by exact E.
    destruct (generation_steps C full_prompt max_length st) as [[t | e] st1];
      eauto.
Qed.

Lemma answer_question_unfold prompt use_rag max_length output_structure st :
  answer_question C prompt use_rag max_length output_structure st =
  match assemble_prompt C prompt use_rag st with
  | (Ok full_prompt, st1) =>
      answer_prompt C full_prompt max_length output_structure st1
  | (Raise e, st1) => (Raise e, st1)
  end.
Proof. reflexivity. Qed.

Lemma get_relevant_context_no_embeddings question st :
  rag_embeddings (self st) = None ->
  get_relevant_context C question st = (Ok EmptyString, st).
Proof.
  intros H. unfold get_relevant_context, bind, get_self. rewrite H.
  reflexivity.
Qed.

Lemma init_no_embeddings name mtype margin tr obj tr1 :
  init C name mtype margin tr = (Ok obj, tr1) ->
  rag_data obj = [] /\ rag_embeddings obj = None /\ model_type obj = mtype /\
  rag_k_nearest_neighbors obj = 3 /\
  (mtype = "seq2seq" \/ mtype = "causal").
Proof.
  unfold init.
  destruct (tokenizer_from_pretrained C tr name); [| discriminate].
  destruct (String.eqb mtype "seq2seq") eqn:E1.
  - apply String.eqb_eq in E1.
    destruct (seq2seq_from_pretrained C _ name); [| discriminate].
    intros H; inversion H; subst. simpl. auto 6.
  - destruct (String.eqb mtype "causal") eqn:E2; [| discriminate].
    apply String.eqb_eq in E2.
    destruct (causal_from_pretrained C _ name); [| discriminate].
    intros H; inversion H; subst. simpl. auto 6.
Qed.

Lemma run_adds_all_failed adds st :
  forallb is_raise (fst (run_adds C adds st)) = true ->
  rag_embeddings (self (snd (run_adds C adds st))) = rag_embeddings (self st).
Proof.
  revert st. induction adds as [| [documents use_summaries] rest IH];
    intros st H.
  - reflexivity.
  - simpl in *.
    destruct (add_rag_data C documents use_summaries st) as [r st1] eqn:E.
    specialize (IH st1).
    destruct (run_adds C rest st1) as [rs st2]. simpl in *.
    apply andb_true_iff in H. destruct H as [Hr Hrs].
    rewrite (IH Hrs).
    destruct r as [u | e]; [discriminate |].
    eapply add_rag_data_raise_keeps_embeddings. exact E.
Qed.

End AnswerFacts.

(** ** The answer path: main results *)

Section AnswerClaims.

Variable C : Collaborators.

(** C6: on an object on which no [add_rag_data] call has returned yet
    (every call so far raised, or none was made), [get_relevant_context]
    returns the empty string and leaves the state, the trace of collaborator
    calls included, as it was: the embedder is not invoked; and
    [answer_question] with [use_rag] goes on with the empty context, and
    returns whenever the output structure, if one is given, can be
    serialised. *)
Theorem query_before_successful_add :
  forall (name mtype : string) (margin : Z) (tr tr1 : trace)
         (obj : LLMQuestionAnswerer) (adds : list (list string * bool))
         (question : string),
    init C name mtype margin tr = (Ok obj, tr1) ->
    forallb is_raise (fst (run_adds C adds (mkState obj tr1))) = true ->
    let st := snd (run_adds C adds (mkState obj tr1)) in
    get_relevant_context C question st = (Ok EmptyString, st) /\
    (forall max_length output_structure,
        answer_question C question true max_length output_structure st =
        answer_prompt C (context_prompt EmptyString question) max_length
          output_structure st) /\
    (forall max_length output_structure,
        serialisable C output_structure ->
        exists a st1,
          answer_question C question true max_length output_structure st =
          (Ok a, st1)).
Proof.
  intros name mtype margin tr tr1 obj adds question Hinit Hfailed st.
  assert (Hnone : rag_embeddings (self st) = None).
  { unfold st. rewrite run_adds_all_failed by exact Hfailed. simpl.
    apply (init_no_embeddings C _ _ _ _ _ _ Hinit). }
  pose proof (get_relevant_context_no_embeddings C question st Hnone) as Hq.
  assert (Hans : forall max_length output_structure,
    answer_question C question true max_length output_structure st =
    answer_prompt C (context_prompt EmptyString question) max_length
      output_structure st).
  { intros ml os. rewrite answer_question_unfold.
    unfold assemble_prompt, bind. rewrite Hq. reflexivity. }
  split; [exact Hq |]. split; [exact Hans |].
  intros ml os Hser. rewrite Hans. apply answer_prompt_returns. exact Hser.
Qed.


(** C8: the outcomes of [generate_structured_output].  [json.dumps] of the
    output structure runs before the [try]: when it refuses the structure,
    its exception comes out and nothing else is done.  Once it has rendered
    the structure, a value is returned.  When the decoded response does not
    parse ([json.loads] raises JSONDecodeError) the value is the record with
    "error" and "raw_response"; when it parses the value is the parsed one,
    as it is; and a fault of the guarded steps, of tokenization and of
    generation in particular, gives the record
    {"error": "An error occurred: <message>"}. *)
Theorem generate_structured_output_outcomes :
  forall (prompt : string) (output_structure : list (string * pyvalue))
         (max_length : Z) (st : state),
    let run :=
      generate_structured_output C prompt output_structure max_length st in
    (forall e,
        json_dumps_indent2 C (PDict output_structure) = Raise e ->
        run = (Raise e, st)) /\
    (forall rendering,
        json_dumps_indent2 C (PDict output_structure) = Ok rendering ->
        let full_prompt := structure_prompt prompt rendering in
        (exists j st1, run = (Ok j, st1)) /\
        (forall response st1,
            generation_steps C full_prompt max_length st = (Ok response, st1)
            ->
            (forall e,
                json_loads C response = Raise e ->
                exn_kind e = JSONDecodeError ->
                run =
                (Ok (JObj [("error",
                            JStr "Failed to generate valid JSON structure");
                           ("raw_response", JStr response)]), st1)) /\
            (forall j, json_loads C response = Ok j -> run = (Ok j, st1))) /\
        (forall e st1,
            generation_steps C full_prompt max_length st = (Raise e, st1) ->
            run =
            (Ok (JObj [("error",
                        JStr ("An error occurred: " ++ exn_str e)%string)]),
             st1)) /\
        (forall e,
            tokenizer_call C (calls st) [full_prompt] false = Raise e ->
            fst run =
            Ok (JObj [("error",
                       JStr ("An error occurred: " ++ exn_str e)%string)])) /\
        (forall inputs e,
            tokenizer_call C (calls st) [full_prompt] false = Ok inputs ->
            model_generate C (calls st ++ [TokenizerCall [full_prompt] false])
              inputs (length_cap (self st) inputs max_length) = Raise e ->
            fst run =
            Ok (JObj [("error",
                       JStr ("An error occurred: " ++ exn_str e)%string)]))).
Proof.
  intros prompt os ml st run. split.
  - intros e Hdumps. apply generate_structured_output_dumps_fault.
    exact Hdumps.
  - intros rendering Hdumps full.
    split; [apply (generate_structured_output_returns _ _ _ _ _ _ Hdumps) |].
    unfold run. rewrite generate_structured_output_unfold, Hdumps. fold full.
    split; [| split; [| split]].
    + intros response st1 H. rewrite H. split.
      * intros e Hj Hk. rewrite Hj, Hk. reflexivity.
      * intros j Hj. rewrite Hj. reflexivity.
    + intros e st1 H. rewrite H. reflexivity.
    + intros e H.
      pose proof (generation_steps_tokenizer_fault C full ml st e H) as Hg.
      destruct (generation_steps C full ml st) as [[t | e'] st2];
        simpl in Hg; [discriminate |].
      inversion Hg; subst. reflexivity.
    + intros inputs e Ht H.
      pose proof (generation_steps_generate_fault C full ml st inputs e Ht H)
        as Hg.
      destruct (generation_steps C full ml st) as [[t | e'] st2];
        simpl in Hg; [discriminate |].
      inversion Hg; subst. reflexivity.
Qed.

(** C9: a [model_type] other than "seq2seq" and "causal" makes the
    constructor raise, with the ValueError of the class once the tokenizer is
    loaded, and no object comes out; an object that does come out has the
    [model_type] it was asked for, one of the two, and keeps it through
    every sequence of method calls. *)
Theorem init_fixes_model_type :
  forall (name mtype : string) (margin : Z) (tr : trace),
    (mtype <> "seq2seq" -> mtype <> "causal" ->
     (exists e, fst (init C name mtype margin tr) = Raise e) /\
     (forall u, tokenizer_from_pretrained C tr name = Ok u ->
                fst (init C name mtype margin tr) =
                Raise (mkExn ValueError
                         "Unsupported model type. Use 'seq2seq' or 'causal'.")))
    /\
    (forall obj tr1,
        init C name mtype margin tr = (Ok obj, tr1) ->
        (mtype = "seq2seq" \/ mtype = "causal") /\
        model_type obj = mtype /\
        forall cs : list method_call,
          model_type (self (run_calls C (mkState obj tr1) cs)) = mtype).
Proof.
  intros name mtype margin tr. split.
  - intros H1 H2. apply String.eqb_neq in H1, H2.
    unfold init. rewrite H1, H2.
    destruct (tokenizer_from_pretrained C tr name) as [u | e]; simpl.
    + split; [eexists; reflexivity | reflexivity].
    + split; [eexists; reflexivity | discriminate].
  - intros obj tr1 Hinit.
    destruct (init_no_embeddings C _ _ _ _ _ _ Hinit)
      as (_ & _ & Hty & _ & Hsup).
    repeat split; try assumption.
    intros cs.
    assert (Hstep : forall st c,
      model_type (self (run_call C st c)) = model_type (self st)).
    { intros st c. destruct c; simpl.
      - apply keeps_summarize_chunk.
      - apply keeps_get_embedding.
      - apply add_rag_data_keeps_model_type.
      - apply keeps_get_relevant_context.
      - apply keeps_answer_question.
      - apply keeps_generate_structured_output. }
    unfold run_calls.
    assert (Hall : forall st,
      model_type (self (fold_left (run_call C) cs st)) = model_type (self st)).
    { induction cs as [| c cs IH]; intros st; simpl.
      - reflexivity.
      - rewrite IH. apply Hstep. }
    rewrite Hall. exact Hty.
Qed.

(** C10: with the empty mapping as [output_structure], [answer_question]
    does what it does with no output structure: the plain path runs, and a
    returned value is a string. *)
Theorem answer_question_empty_structure :
  forall (prompt : string) (use_rag : bool) (max_length : Z) (st : state),
    answer_question C prompt use_rag max_length (Some []) st =
    answer_question C prompt use_rag max_length None st /\
    (forall a st1,
        answer_question C prompt use_rag max_length (Some []) st = (Ok a, st1)
        -> exists text, a = JStr text).
Proof.
  intros prompt use_rag ml st. split; [reflexivity |].
  intros a st1. rewrite answer_question_unfold.
  destruct (assemble_prompt C prompt use_rag st) as [[full | e] st0];
    [| discriminate].
  rewrite answer_prompt_plain by reflexivity.
  unfold error_text.
  destruct (generation_steps C full ml st0) as [[t | e] st2];
    intros H; inversion H; subst; eexists; reflexivity.
Qed.

End AnswerClaims.

(** ** Runs on concrete collaborators: the answer path *)

(** An object whose encoder is out of memory: the one add fails, the query
    returns the empty string. *)
Lemma query_before_successful_add_witness :
  let C := Toy.failing_encoder in
  let loaded :=
    [LoadTokenizer "google/flan-t5-base"; LoadSeq2Seq "google/flan-t5-base"] in
  let adds := [(Toy.four_documents, false)] in
  let st := snd (run_adds C adds (mkState (self Toy.fresh) loaded)) in
  init C "google/flan-t5-base" "seq2seq" 100 [] = (Ok (self Toy.fresh), loaded)
  /\ fst (run_adds C adds (mkState (self Toy.fresh) loaded))
     = [Raise Toy.out_of_memory]
  /\ get_relevant_context C "B?" st = (Ok EmptyString, st)
  /\ exists a st1, answer_question C "B?" true 100 None st = (Ok a, st1).
Proof.
  cbv zeta.
  split; [reflexivity |].
  split; [reflexivity |].
  destruct (query_before_successful_add Toy.failing_encoder
              "google/flan-t5-base" "seq2seq" 100 []
              [LoadTokenizer "google/flan-t5-base";
               LoadSeq2Seq "google/flan-t5-base"]
              (self Toy.fresh) [(Toy.four_documents, false)] "B?"
              eq_refl eq_refl) as (H & _ & Hret).
  split; [exact H |].
  apply Hret. intros Htruthy. discriminate Htruthy.
Defined.



(** Four outcomes of [generate_structured_output]: a response that is not
    JSON, one that is, a tokenizer that faults, and a structure that
    [json.dumps] refuses. *)
Lemma generate_structured_output_outcomes_witness :
  let structure :=
    [("name", PJson (JStr "string")); ("age", PJson (JStr "int"))] in
  fst (generate_structured_output Toy.collaborators "Who?" structure 200
         Toy.fresh)
  = Ok (JObj [("error", JStr "Failed to generate valid JSON structure");
              ("raw_response", JStr "ok")]) /\
  fst (generate_structured_output Toy.null_generator "Who?" structure 200
         Toy.fresh)
  = Ok JNull /\
  fst (generate_structured_output Toy.failing_tokenizer "Who?" structure 200
         Toy.fresh)
  = Ok (JObj [("error",
               JStr "An error occurred: text input must be of type str")]) /\
  generate_structured_output Toy.collaborators "Who?"
    [("name", PObject "<class 'str'>")] 200 Toy.fresh
  = (Raise (mkExn TypeError "Object of type type is not JSON serializable"),
     Toy.fresh).
Proof.
  cbv zeta. split; [| split; [| split]].
  - destruct (generate_structured_output_outcomes Toy.collaborators "Who?"
                [("name", PJson (JStr "string")); ("age", PJson (JStr "int"))]
                200 Toy.fresh) as (_ & Hok).
    destruct (Hok "{}" eq_refl) as (_ & H & _).
    edestruct H as [Hfail _]; [vm_compute; reflexivity |].
    rewrite (Hfail (mkExn JSONDecodeError
                      "Expecting value: line 1 column 1 (char 0)")
               eq_refl eq_refl).
    reflexivity.
  - destruct (generate_structured_output_outcomes Toy.null_generator "Who?"
                [("name", PJson (JStr "string")); ("age", PJson (JStr "int"))]
                200 Toy.fresh) as (_ & Hok).
    destruct (Hok "{}" eq_refl) as (_ & H & _).
    edestruct H as [_ Hparsed]; [vm_compute; reflexivity |].
    rewrite (Hparsed JNull eq_refl). reflexivity.
  - destruct (generate_structured_output_outcomes Toy.failing_tokenizer
                "Who?"
                [("name", PJson (JStr "string")); ("age", PJson (JStr "int"))]
                200 Toy.fresh) as (_ & Hok).
    destruct (Hok "{}" eq_refl) as (_ & _ & _ & H & _).
    apply (H (mkExn ValueError "text input must be of type str")).
    reflexivity.
  - destruct (generate_structured_output_outcomes Toy.collaborators "Who?"
                [("name", PObject "<class 'str'>")] 200 Toy.fresh)
      as (Hfault & _).
    apply Hfault. reflexivity.
Defined.

(** "bert" is refused; "seq2seq" is kept through an add and a query. *)
Lemma init_fixes_model_type_witness :
  let C := Toy.collaborators in
  fst (init C "google/flan-t5-base" "bert" 100 []) =
  Raise (mkExn ValueError "Unsupported model type. Use 'seq2seq' or 'causal'.")
  /\
  model_type
    (self (run_calls C
             (mkState (self Toy.fresh)
                [LoadTokenizer "google/flan-t5-base";
                 LoadSeq2Seq "google/flan-t5-base"])
             [CallAdd Toy.four_documents false;
              CallAnswer "B?" true 100 None])) = "seq2seq".
Proof.
  cbv zeta. split.
  - destruct (init_fixes_model_type Toy.collaborators "google/flan-t5-base"
                "bert" 100 []) as [H _].
    destruct H as [_ H]; [discriminate | discriminate |].
    apply (H tt). reflexivity.
  - destruct (init_fixes_model_type Toy.collaborators "google/flan-t5-base"
                "seq2seq" 100 []) as [_ H].
    destruct (H (self Toy.fresh)
                [LoadTokenizer "google/flan-t5-base";
                 LoadSeq2Seq "google/flan-t5-base"] eq_refl)
      as (_ & _ & Hkeep).
    apply Hkeep.
Defined.

(** The empty mapping and no mapping give the same plain answer. *)
Lemma answer_question_empty_structure_witness :
  answer_question Toy.collaborators "Hi" false 30 (Some []) Toy.fresh =
  answer_question Toy.collaborators "Hi" false 30 None Toy.fresh /\
  fst (answer_question Toy.collaborators "Hi" false 30 (Some []) Toy.fresh) =
  Ok (JStr "ok").
Proof.
  destruct (answer_question_empty_structure Toy.collaborators "Hi" false 30
              Toy.fresh) as [H _].
  split; [exact H | vm_compute; reflexivity].
Defined.

(** * Further properties *)

(** ** The chunker: edges and boundaries *)

Section ChunkerEdges.

Variable C : Collaborators.

Lemma fold_split_step_fits (budget : Z) (l cur : list string) :
  chunk_tokens C cur + chunk_tokens C l <= budget ->
  fold_left (split_step C budget) l ([], cur, chunk_tokens C cur) =
  ([], cur ++ l, chunk_tokens C (cur ++ l)).
Proof.
  revert cur. induction l as [| x l IH]; intros cur H.
  - simpl. rewrite app_nil_r. reflexivity.
  - cbn [fold_left]. unfold split_step at 2.
    fold (sentence_length C x).
    pose proof (chunk_tokens_nonneg C l) as Hl. simpl in H.
    replace (chunk_tokens C cur + sentence_length C x >? budget) with false
      by (symmetry; rewrite Z.gtb_ltb; apply Z.ltb_ge; lia).
    replace (chunk_tokens C cur + sentence_length C x)
      with (chunk_tokens C (cur ++ [x]))
      by (rewrite chunk_tokens_app; simpl; lia).
    rewrite IH.
    + rewrite <- app_assoc. reflexivity.
    + rewrite chunk_tokens_app. simpl. lia.
Qed.

(** X1: a document whose sentences total within the budget comes back as a
    single chunk, its sentences joined by single spaces. *)
Theorem split_document_fits_one_chunk :
  forall (s : LLMQuestionAnswerer) (document : string),
    sent_tokenize C document <> [] ->
    chunk_tokens C (sent_tokenize C document) <= max_chunk_size C s ->
    split_document C s document =
    [String.concat " " (sent_tokenize C document)].
Proof.
  intros s document Hne Hfit.
  unfold split_document, split_sentences.
  change 0 with (chunk_tokens C []).
  rewrite fold_split_step_fits by (simpl; exact Hfit).
  simpl app.
  destruct (sent_tokenize C document); [congruence | reflexivity].
Qed.

Lemma fold_group_step_oversized (budget : Z) (l : list string) groups cur n :
  0 <= n ->
  Forall (fun x => budget < sentence_length C x) l ->
  flush (fold_left (group_step C budget) l (groups, cur, n)) =
  flush (groups, cur, n) ++ map (fun x => [x]) l.
Proof.
  revert groups cur n. induction l as [| x l IH]; intros groups cur n Hn Hall.
  - simpl. rewrite app_nil_r. reflexivity.
  - inversion Hall as [| ? ? Hx Hl]; subst.
    cbn [fold_left]. unfold group_step at 2.
    replace (n + sentence_length C x >? budget) with true
      by (symmetry; rewrite Z.gtb_ltb; apply Z.ltb_lt; lia).
    rewrite IH; [| unfold sentence_length; lia | exact Hl].
    unfold flush. simpl nonempty. cbv iota.
    rewrite <- app_assoc. reflexivity.
Qed.

(** X3: when the budget is negative (the margin exceeds the model's maximum
    input), or every sentence alone exceeds the budget, [split_document]
    returns the sentences themselves, one per chunk. *)
Theorem split_document_one_sentence_per_chunk :
  forall (s : LLMQuestionAnswerer) (document : string),
    max_chunk_size C s < 0 \/
    Forall (fun x => max_chunk_size C s < sentence_length C x)
      (sent_tokenize C document) ->
    split_document C s document = sent_tokenize C document.
Proof.
  intros s document H.
  assert (Hall : Forall (fun x => max_chunk_size C s < sentence_length C x)
                   (sent_tokenize C document)).
  { destruct H as [Hneg | H]; [| exact H].
    apply Forall_forall. intros x _. unfold sentence_length. lia. }
  unfold split_document. rewrite split_sentences_groups.
  unfold split_groups.
  rewrite fold_group_step_oversized by (lia || exact Hall).
  simpl. rewrite map_map. simpl. apply map_id.
Qed.

Lemma groups_length_le (groups : list (list string)) :
  Forall (fun g => g <> []) groups ->
  (List.length groups <= List.length (List.concat groups))%nat.
Proof.
  induction groups as [| g gs IH]; intros H; simpl.
  - lia.
  - inversion H as [| ? ? Hg Hgs]; subst.
    specialize (IH Hgs). rewrite length_app.
    destruct g; [congruence | simpl; lia].
Qed.

(** X4: [split_document] never returns more chunks than the document has
    sentences, and it returns no chunk exactly when the document has no
    sentence. *)
Theorem split_document_chunk_count :
  forall (s : LLMQuestionAnswerer) (document : string),
    (List.length (split_document C s document)
     <= List.length (sent_tokenize C document))%nat /\
    (split_document C s document = [] <-> sent_tokenize C document = []).
Proof.
  intros s document.
  destruct (split_groups_spec C (max_chunk_size C s) (sent_tokenize C document))
    as (Hcat & Hne & _).
  unfold split_document. rewrite split_sentences_groups.
  set (groups := split_groups C (max_chunk_size C s)
                   (sent_tokenize C document)) in *.
  split.
  - rewrite length_map, <- Hcat. apply groups_length_le. exact Hne.
  - split; intros H.
    + apply map_eq_nil in H. rewrite <- Hcat, H. reflexivity.
    + destruct groups as [| g gs]; [reflexivity |].
      inversion Hne as [| ? ? Hg _]; subst.
      rewrite <- Hcat in H. simpl in H.
      destruct g; [congruence | discriminate].
Qed.

Lemma greedy_snoc (budget : Z) (groups : list (list string))
  (g : list string) (x : string) :
  greedy C budget (groups ++ [g]) ->
  budget < chunk_tokens C g + sentence_length C x ->
  greedy C budget (groups ++ [g] ++ [[x]]).
Proof.
  induction groups as [| g1 gs IH]; intros H Hx.
  - simpl. auto.
  - destruct gs as [| g2 gs].
    + simpl in *. destruct H as [H _]. split; [exact H | auto].
    + change (greedy C budget (g1 :: (g2 :: gs) ++ [g])) in H.
      change (greedy C budget (g1 :: (g2 :: gs) ++ [g] ++ [[x]])).
      simpl in H. destruct H as [H1 H2].
      simpl. split; [exact H1 |]. apply IH; assumption.
Qed.

Lemma greedy_extend_last (budget : Z) (groups : list (list string))
  (g : list string) (x : string) :
  g <> [] ->
  greedy C budget (groups ++ [g]) ->
  greedy C budget (groups ++ [g ++ [x]]).
Proof.
  intros Hg. induction groups as [| g1 gs IH]; intros H.
  - simpl. exact I.
  - destruct gs as [| g2 gs].
    + simpl in *. destruct H as [H _].
      destruct g as [| y g]; [congruence |]. simpl. auto.
    + change (greedy C budget (g1 :: (g2 :: gs) ++ [g])) in H.
      change (greedy C budget (g1 :: (g2 :: gs) ++ [g ++ [x]])).
      simpl in H. destruct H as [H1 H2].
      simpl. split; [exact H1 |]. apply IH. exact H2.
Qed.

Lemma fold_group_step_greedy (budget : Z) (l : list string) groups cur n :
  n = chunk_tokens C cur ->
  (cur = [] -> groups = []) ->
  greedy C budget (flush (groups, cur, n)) ->
  greedy C budget (flush (fold_left (group_step C budget) l (groups, cur, n))).
Proof.
  revert groups cur n. induction l as [| x l IH]; intros groups cur n Hn He Hg.
  - exact Hg.
  - cbn [fold_left]. unfold group_step at 2.
    destruct (n + sentence_length C x >? budget) eqn:E.
    + rewrite Z.gtb_ltb in E. apply Z.ltb_lt in E.
      apply IH.
      * simpl. lia.
      * discriminate.
      * destruct cur as [| y cur].
        -- rewrite (He eq_refl). simpl. exact I.
        -- simpl in Hg. simpl. rewrite <- app_assoc.
           apply greedy_snoc; [exact Hg | lia].
    + apply IH.
      * rewrite chunk_tokens_app. simpl. lia.
      * intros H. destruct cur; discriminate.
      * destruct cur as [| y cur].
        -- rewrite (He eq_refl). simpl. exact I.
        -- simpl in Hg. simpl.
           apply (greedy_extend_last budget groups (y :: cur) x);
             [discriminate | exact Hg].
Qed.

Lemma greedy_adjacent (budget : Z) (pre : list (list string))
  (g1 g2 : list string) (post : list (list string)) :
  greedy C budget (pre ++ g1 :: g2 :: post) ->
  exists x rest,
    g2 = x :: rest /\ budget < chunk_tokens C g1 + sentence_length C x.
Proof.
  induction pre as [| g pre IH]; intros H.
  - simpl in H. destruct H as [H _].
    destruct g2 as [| x rest]; [contradiction | eauto].
  - apply IH. destruct pre as [| g' pre]; simpl in H; apply H.
Qed.

(** X2: chunking is greedy.  The chunks are the joins of consecutive groups
    of sentences, and a group ends only where it must: the first sentence of
    the next group would have taken the running count over the budget. *)
Theorem split_document_greedy :
  forall (s : LLMQuestionAnswerer) (document : string),
  exists groups : list (list string),
    split_document C s document = map (String.concat " ") groups /\
    List.concat groups = sent_tokenize C document /\
    forall pre g1 g2 post,
      groups = pre ++ g1 :: g2 :: post ->
      exists x rest,
        g2 = x :: rest /\
        max_chunk_size C s < chunk_tokens C g1 + sentence_length C x.
Proof.
  intros s document.
  exists (split_groups C (max_chunk_size C s) (sent_tokenize C document)).
  destruct (split_groups_spec C (max_chunk_size C s) (sent_tokenize C document))
    as (Hcat & _ & _).
  unfold split_document. rewrite split_sentences_groups.
  split; [reflexivity |]. split; [exact Hcat |].
  intros pre g1 g2 post Hsplit.
  apply (greedy_adjacent _ pre g1 g2 post).
  rewrite <- Hsplit. unfold split_groups.
  apply fold_group_step_greedy; [reflexivity | reflexivity | exact I].
Qed.

End ChunkerEdges.

(** ** Which collaborator calls a method makes *)

Section EmitsFacts.

Variable P : string -> call -> Prop.

Lemma emits_ret {A} (a : A) : emits P (ret a).
Proof.
  intros st. exists []. simpl. rewrite app_nil_r. auto.
Qed.

Lemma emits_raise {A} (e : exn) : emits P (@raise A e).
Proof.
  intros st. exists []. simpl. rewrite app_nil_r. auto.
Qed.

Lemma emits_lift {A} (r : result A) : emits P (lift r).
Proof.
  intros st. exists []. simpl. rewrite app_nil_r. auto.
Qed.

Lemma emits_get_self : emits P get_self.
Proof.
  intros st. exists []. simpl. rewrite app_nil_r. auto.
Qed.

Lemma emits_set_rag_data d : emits P (set_rag_data d).
Proof.
  intros st. exists []. simpl. rewrite app_nil_r. auto.
Qed.

Lemma emits_set_rag_embeddings e : emits P (set_rag_embeddings e).
Proof.
  intros st. exists []. simpl. rewrite app_nil_r. auto.
Qed.

Lemma emits_invoke {A} (c : call) (g : trace -> result A) :
  (forall mt, P mt c) -> emits P (invoke c g).
Proof.
  intros Hc st. exists [c]. simpl. auto.
Qed.

Lemma emits_bind {A B} (m : M A) (k : A -> M B) :
  emits P m -> (forall a, emits P (k a)) -> emits P (bind m k).
Proof.
  intros Hm Hk st. unfold bind.
  destruct (Hm st) as (new1 & Hc1 & Hp1 & Ht1).
  destruct (m st) as [[a | e] st1]; simpl in *.
  - destruct (Hk a st1) as (new2 & Hc2 & Hp2 & Ht2).
    exists (new1 ++ new2). rewrite Hc2, Hc1, Ht2, Ht1.
    rewrite app_assoc. repeat split.
    apply Forall_app. split; [exact Hp1 |]. rewrite <- Ht1. exact Hp2.
  - exists new1. auto.
Qed.

Lemma emits_try_except {A} (m : M A) (h : exn -> M A) :
  emits P m -> (forall e, emits P (h e)) -> emits P (try_except m h).
Proof.
  intros Hm Hh st. unfold try_except.
  destruct (Hm st) as (new1 & Hc1 & Hp1 & Ht1).
  destruct (m st) as [[a | e] st1]; simpl in *.
  - exists new1. auto.
  - destruct (Hh e st1) as (new2 & Hc2 & Hp2 & Ht2).
    exists (new1 ++ new2). rewrite Hc2, Hc1, Ht2, Ht1.
    rewrite app_assoc. repeat split.
    apply Forall_app. split; [exact Hp1 |]. rewrite <- Ht1. exact Hp2.
Qed.

Lemma emits_try_except_class {A} (cls : exn_class) (m h : M A) :
  emits P m -> emits P h -> emits P (try_except_class cls m h).
Proof.
  intros Hm Hh st. unfold try_except_class.
  destruct (Hm st) as (new1 & Hc1 & Hp1 & Ht1).
  destruct (m st) as [[a | e] st1]; simpl in *.
  - exists new1. auto.
  - destruct (exn_class_eqb (exn_kind e) cls); simpl.
    + destruct (Hh st1) as (new2 & Hc2 & Hp2 & Ht2).
      exists (new1 ++ new2). rewrite Hc2, Hc1, Ht2, Ht1.
      rewrite app_assoc. repeat split.
      apply Forall_app. split; [exact Hp1 |]. rewrite <- Ht1. exact Hp2.
    + exists new1. auto.
Qed.

Lemma emits_mapM {A B} (g : A -> M B) (l : list A) :
  (forall x, emits P (g x)) -> emits P (mapM g l).
Proof.
  intros Hg. induction l as [| x l IH]; simpl.
  - apply emits_ret.
  - apply emits_bind; [apply Hg |]. intros y.
    apply emits_bind; [exact IH |]. intros ys. apply emits_ret.
Qed.

Lemma emits_if {A} (b : bool) (m1 m2 : M A) :
  emits P m1 -> emits P m2 -> emits P (if b then m1 else m2).
Proof. destruct b; auto. Qed.

Lemma emits_first_row outputs : emits P (first_row outputs).
Proof. destruct outputs; [apply emits_raise | apply emits_ret]. Qed.

Lemma emits_rag_data_at i : emits P (rag_data_at i).
Proof.
  unfold rag_data_at. apply emits_bind; [apply emits_get_self | intros s].
  destruct (nth_error (rag_data s) i); [apply emits_ret | apply emits_raise].
Qed.

End EmitsFacts.

Section MethodCalls.

Variable C : Collaborators.

Lemma emits_tokenize generates embeds max_length texts padding :
  emits (conforms generates embeds max_length) (tokenize C texts padding).
Proof. apply emits_invoke. intros mt. exact I. Qed.

Lemma emits_decode embeds max_length ids :
  emits (conforms true embeds max_length) (decode C ids).
Proof. apply emits_invoke. intros mt. reflexivity. Qed.

Lemma emits_generate embeds max_length inputs :
  emits (conforms true embeds max_length) (generate C inputs max_length).
Proof.
  intros st. rewrite generate_run. simpl.
  exists [Generate inputs (length_cap (self st) inputs max_length)].
  repeat split. constructor; [| constructor].
  simpl. split; reflexivity.
Qed.

Lemma emits_generation_steps embeds max_length full_prompt :
  emits (conforms true embeds max_length)
    (generation_steps C full_prompt max_length).
Proof.
  unfold generation_steps.
  apply emits_bind; [apply emits_tokenize | intros inputs].
  apply emits_bind; [apply emits_generate | intros outputs].
  apply emits_bind; [apply emits_first_row | intros row].
  apply emits_decode.
Qed.

Lemma emits_get_embedding generates max_length text :
  emits (conforms generates true max_length) (get_embedding C text).
Proof.
  intros st. unfold get_embedding, tokenize, bind, invoke, get_self, ret.
  simpl.
  destruct (tokenizer_call C (calls st) _ true) as [inputs | e]; simpl.
  - destruct (String.eqb (model_type (self st)) "seq2seq") eqn:E; simpl.
    + apply String.eqb_eq in E.
      exists [TokenizerCall (match text with TStr s => [s] | TList l => l end)
                true; Encoder inputs].
      destruct (model_encoder C _ inputs); simpl; rewrite <- app_assoc;
        repeat split; repeat constructor; exact E.
    + apply String.eqb_neq in E.
      exists [TokenizerCall (match text with TStr s => [s] | TList l => l end)
                true; Forward inputs].
      destruct (model_forward C _ inputs); simpl; rewrite <- app_assoc;
        repeat split; repeat constructor; exact E.
  - exists [TokenizerCall (match text with TStr s => [s] | TList l => l end)
              true].
    repeat split. repeat constructor.
Qed.

Lemma emits_summarize_chunk embeds max_length chunk :
  emits (conforms true embeds max_length) (summarize_chunk C max_length chunk).
Proof. apply emits_generation_steps. Qed.

Lemma emits_get_relevant_context generates max_length question :
  emits (conforms generates true max_length)
    (get_relevant_context C question).
Proof.
  unfold get_relevant_context.
  apply emits_bind; [apply emits_get_self | intros s].
  destruct (rag_embeddings s); [| apply emits_ret].
  apply emits_bind; [apply emits_get_embedding | intros q].
  apply emits_bind; [apply emits_lift | intros sims].
  apply emits_bind; [apply emits_get_self | intros s1].
  apply emits_bind; [apply emits_lift | intros top].
  apply emits_bind; [| intros chunks; apply emits_ret].
  apply emits_mapM. apply emits_rag_data_at.
Qed.

Lemma emits_generate_structured_output
  embeds max_length prompt output_structure :
  emits (conforms true embeds max_length)
    (generate_structured_output C prompt output_structure max_length).
Proof.
  unfold generate_structured_output.
  apply emits_bind; [apply emits_lift | intros rendering].
  apply emits_try_except; [| intros e; apply emits_ret].
  apply emits_bind; [apply emits_tokenize | intros inputs].
  apply emits_bind; [apply emits_generate | intros outputs].
  apply emits_bind; [apply emits_first_row | intros row].
  apply emits_bind; [apply emits_decode | intros response].
  apply emits_try_except_class; [apply emits_lift | apply emits_ret].
Qed.

Lemma emits_answer_prompt embeds max_length full_prompt output_structure :
  emits (conforms true embeds max_length)
    (answer_prompt C full_prompt max_length output_structure).
Proof.
  unfold answer_prompt. apply emits_if.
  - apply emits_generate_structured_output.
  - apply emits_try_except; [| intros e; apply emits_ret].
    apply emits_bind; [apply emits_tokenize | intros inputs].
    apply emits_bind; [apply emits_generate | intros outputs].
    apply emits_bind; [apply emits_first_row | intros row].
    apply emits_bind; [apply emits_decode | intros text].
    apply emits_ret.
Qed.

Lemma emits_answer_question prompt use_rag max_length output_structure :
  emits (conforms true use_rag max_length)
    (answer_question C prompt use_rag max_length output_structure).
Proof.
  unfold answer_question.
  apply emits_bind; [| intros full; apply emits_answer_prompt].
  destruct use_rag; [| apply emits_ret].
  apply emits_bind; [apply emits_get_relevant_context |].
  intros ctx. apply emits_ret.
Qed.

Lemma emits_add_rag_data documents use_summaries :
  emits (conforms use_summaries true 100)
    (add_rag_data C documents use_summaries).
Proof.
  unfold add_rag_data.
  apply emits_bind; [apply emits_get_self | intros s0].
  apply emits_bind.
  - destruct use_summaries.
    + apply emits_bind;
        [apply emits_mapM; intros x; apply emits_summarize_chunk |].
      intros summaries.
      apply emits_bind; [apply emits_get_self | intros s].
      apply emits_bind; [apply emits_set_rag_data | intros _].
      apply emits_get_embedding.
    + apply emits_bind; [apply emits_get_self | intros s].
      apply emits_bind; [apply emits_set_rag_data | intros _].
      apply emits_get_embedding.
  - intros new_embeddings.
    apply emits_bind; [apply emits_get_self | intros s].
    apply emits_bind.
    + destruct (rag_embeddings s); apply emits_set_rag_embeddings.
    + intros _. apply emits_bind; [apply emits_get_self | intros s1].
      apply emits_invoke. intros mt. exact I.
Qed.

End MethodCalls.

Section TraceProperties.

Variable C : Collaborators.

Lemma emits_weaken {A} (P Q : string -> call -> Prop) (m : M A) :
  (forall mt c, P mt c -> Q mt c) -> emits P m -> emits Q m.
Proof.
  intros HPQ Hm st. destruct (Hm st) as (new & Hc & Hp & Ht).
  exists new. repeat split; try assumption.
  eapply Forall_impl; [| exact Hp]. intros c. apply HPQ.
Qed.

Lemma skipn_length_app {A} (l1 l2 : list A) :
  skipn (List.length l1) (l1 ++ l2) = l2.
Proof. induction l1 as [| x l1 IH]; simpl; auto. Qed.

Lemma emits_added {A} (P : string -> call -> Prop) (m : M A) st :
  emits P m ->
  calls (snd (m st)) = calls st ++ added m st /\
  Forall (P (model_type (self st))) (added m st).
Proof.
  intros Hm. destruct (Hm st) as (new & Hc & Hp & _).
  unfold added. rewrite Hc, skipn_length_app. auto.
Qed.

Lemma conforms_embedding_path generates embeds max_length mt c :
  conforms generates embeds max_length mt c -> follows_embedding_path mt c.
Proof. destruct c; simpl; tauto. Qed.

Lemma conforms_no_generation embeds max_length mt c :
  conforms false embeds max_length mt c -> is_generation_call c = false.
Proof.
  destruct c; simpl; try reflexivity; intros H; [destruct H |]; discriminate.
Qed.

Lemma conforms_no_embedding generates max_length mt c :
  conforms generates false max_length mt c -> is_embedding_call c = false.
Proof.
  destruct c; simpl; try reflexivity; intros [H _]; discriminate.
Qed.

Lemma conforms_cap generates embeds max_length s inputs cap :
  conforms generates embeds max_length (model_type s) (Generate inputs cap) ->
  cap = length_cap s inputs max_length.
Proof. simpl. unfold length_cap. tauto. Qed.

(** X5: every generation call follows the decoding convention of the object.
    Whatever [summarize_chunk], [answer_question] or
    [generate_structured_output] asks of the model is capped at [max_length]
    for a seq2seq object and at the input length plus [max_length] otherwise;
    the summaries of [add_rag_data] use the cap 100. *)
Theorem generation_cap_follows_convention :
  forall (st : state) (inputs : token_ids) (cap : Z),
    (forall max_length chunk,
        In (Generate inputs cap)
           (added (summarize_chunk C max_length chunk) st) ->
        cap = length_cap (self st) inputs max_length) /\
    (forall prompt use_rag max_length output_structure,
        In (Generate inputs cap)
           (added (answer_question C prompt use_rag max_length
                     output_structure) st) ->
        cap = length_cap (self st) inputs max_length) /\
    (forall prompt output_structure max_length,
        In (Generate inputs cap)
           (added (generate_structured_output C prompt output_structure
                     max_length) st) ->
        cap = length_cap (self st) inputs max_length) /\
    (forall documents use_summaries,
        In (Generate inputs cap)
           (added (add_rag_data C documents use_summaries) st) ->
        cap = length_cap (self st) inputs 100).
Proof.
  intros st inputs cap.
  split; [| split; [| split]].
  - intros ml chunk Hin.
    destruct (emits_added _ _ st (emits_summarize_chunk C false ml chunk))
      as [_ Hall].
    rewrite Forall_forall in Hall. eapply conforms_cap. apply Hall. exact Hin.
  - intros prompt use_rag ml os Hin.
    destruct (emits_added _ _ st (emits_answer_question C prompt use_rag ml os))
      as [_ Hall].
    rewrite Forall_forall in Hall. eapply conforms_cap. apply Hall. exact Hin.
  - intros prompt os ml Hin.
    destruct (emits_added _ _ st
                (emits_generate_structured_output C false ml prompt os))
      as [_ Hall].
    rewrite Forall_forall in Hall. eapply conforms_cap. apply Hall. exact Hin.
  - intros documents use_summaries Hin.
    destruct (emits_added _ _ st (emits_add_rag_data C documents use_summaries))
      as [_ Hall].
    rewrite Forall_forall in Hall. eapply conforms_cap. apply Hall. exact Hin.
Qed.

(** X6: retrieval and raw ingestion make no generation call.  The calls that
    [get_embedding], [get_relevant_context] and [add_rag_data] without
    summaries add to the trace hold no generate and no decode. *)
Theorem retrieval_and_raw_ingestion_never_generate :
  forall st : state,
    (forall text,
        Forall (fun c => is_generation_call c = false)
          (added (get_embedding C text) st)) /\
    (forall question,
        Forall (fun c => is_generation_call c = false)
          (added (get_relevant_context C question) st)) /\
    (forall documents,
        Forall (fun c => is_generation_call c = false)
          (added (add_rag_data C documents false) st)).
Proof.
  intros st. split; [| split].
  - intros text.
    destruct (emits_added _ _ st (emits_get_embedding C false 0 text))
      as [_ Hall].
    eapply Forall_impl; [| exact Hall].
    intros c. apply conforms_no_generation.
  - intros question.
    destruct (emits_added _ _ st
                (emits_get_relevant_context C false 0 question)) as [_ Hall].
    eapply Forall_impl; [| exact Hall].
    intros c. apply conforms_no_generation.
  - intros documents.
    destruct (emits_added _ _ st (emits_add_rag_data C documents false))
      as [_ Hall].
    eapply Forall_impl; [| exact Hall].
    intros c. apply conforms_no_generation.
Qed.

(** X7: answering without retrieval computes no embedding.  The calls that
    [summarize_chunk], [generate_structured_output] and [answer_question]
    with [use_rag] false add to the trace hold no encoder and no forward
    pass. *)
Theorem answers_without_rag_never_embed :
  forall st : state,
    (forall max_length chunk,
        Forall (fun c => is_embedding_call c = false)
          (added (summarize_chunk C max_length chunk) st)) /\
    (forall prompt output_structure max_length,
        Forall (fun c => is_embedding_call c = false)
          (added (generate_structured_output C prompt output_structure
                    max_length) st)) /\
    (forall prompt max_length output_structure,
        Forall (fun c => is_embedding_call c = false)
          (added (answer_question C prompt false max_length output_structure)
             st)).
Proof.
  intros st. split; [| split].
  - intros ml chunk.
    destruct (emits_added _ _ st (emits_summarize_chunk C false ml chunk))
      as [_ Hall].
    eapply Forall_impl; [| exact Hall].
    intros c. apply conforms_no_embedding.
  - intros prompt os ml.
    destruct (emits_added _ _ st
                (emits_generate_structured_output C false ml prompt os))
      as [_ Hall].
    eapply Forall_impl; [| exact Hall].
    intros c. apply conforms_no_embedding.
  - intros prompt ml os.
    destruct (emits_added _ _ st (emits_answer_question C prompt false ml os))
      as [_ Hall].
    eapply Forall_impl; [| exact Hall].
    intros c. apply conforms_no_embedding.
Qed.

Lemma emits_run_call (c : method_call) st :
  exists new,
    calls (run_call C st c) = calls st ++ new /\
    Forall (follows_embedding_path (model_type (self st))) new /\
    model_type (self (run_call C st c)) = model_type (self st).
Proof.
  destruct c; simpl;
    [ apply (emits_weaken _ _ _ (conforms_embedding_path true false max_length))
    | apply (emits_weaken _ _ _ (conforms_embedding_path false true 0))
    | apply (emits_weaken _ _ _
               (conforms_embedding_path use_summaries true 100))
    | apply (emits_weaken _ _ _ (conforms_embedding_path false true 0))
    | apply (emits_weaken _ _ _
               (conforms_embedding_path true use_rag max_length))
    | apply (emits_weaken _ _ _
               (conforms_embedding_path true false max_length)) ].
  - apply emits_summarize_chunk.
  - apply emits_get_embedding.
  - apply emits_add_rag_data.
  - apply emits_get_relevant_context.
  - apply emits_answer_question.
  - apply emits_generate_structured_output.
Qed.

Lemma emits_run_calls (cs : list method_call) st :
  exists new,
    calls (run_calls C st cs) = calls st ++ new /\
    Forall (follows_embedding_path (model_type (self st))) new.
Proof.
  revert st. induction cs as [| c cs IH]; intros st.
  - exists []. simpl. rewrite app_nil_r. auto.
  - simpl. destruct (emits_run_call c st) as (new1 & Hc1 & Hp1 & Ht1).
    destruct (IH (run_call C st c)) as (new2 & Hc2 & Hp2).
    exists (new1 ++ new2). unfold run_calls in *. rewrite Hc2, Hc1.
    rewrite app_assoc. split; [reflexivity |].
    apply Forall_app. split; [exact Hp1 |]. rewrite <- Ht1. exact Hp2.
Qed.

(** X8: embeddings follow the model type, over any sequence of method calls.
    A seq2seq object embeds with the encoder alone and never runs the full
    forward pass; any other object never calls the encoder alone; and no
    method loads the tokenizer or a model again. *)
Theorem embedding_path_follows_model_type :
  forall (st : state) (cs : list method_call) (c : call),
    In c (added_by_calls C st cs) ->
    match c with
    | Encoder _ => model_type (self st) = "seq2seq"
    | Forward _ => model_type (self st) <> "seq2seq"
    | LoadTokenizer _ | LoadSeq2Seq _ | LoadCausal _ => False
    | _ => True
    end.
Proof.
  intros st cs c Hin.
  destruct (emits_run_calls cs st) as (new & Hc & Hp).
  unfold added_by_calls in Hin. rewrite Hc, skipn_length_app in Hin.
  rewrite Forall_forall in Hp. apply (Hp c Hin).
Qed.

End TraceProperties.

(** ** The object over its lifetime *)

Section Lifetime.

Variable C : Collaborators.

Lemma add_rag_data_keeps_configuration documents use_summaries :
  keeps configuration (add_rag_data C documents use_summaries).
Proof.
  intros st. rewrite add_rag_data_unfold. cbv zeta.
  destruct use_summaries.
  - pose proof (mapM_summarize_self C
                  (flat_map (split_document C (self st)) documents) st) as H1.
    destruct (mapM _ _ st) as [[texts | e] st1]; simpl in H1;
      [| rewrite <- H1; reflexivity].
    match goal with
    | |- context [get_embedding C ?t ?x] =>
        pose proof (get_embedding_self C t x) as H2;
        destruct (get_embedding C t x) as [[new | e] st2]
    end; simpl in *; unfold configuration; rewrite H2; simpl; rewrite H1;
      reflexivity.
  - match goal with
    | |- context [get_embedding C ?t ?x] =>
        pose proof (get_embedding_self C t x) as H2;
        destruct (get_embedding C t x) as [[new | e] st2]
    end; simpl in *; unfold configuration; rewrite H2; reflexivity.
Qed.

Lemma run_call_keeps_configuration st c :
  configuration (self (run_call C st c)) = configuration (self st).
Proof.
  destruct c; simpl.
  - apply keeps_summarize_chunk.
  - apply keeps_get_embedding.
  - apply add_rag_data_keeps_configuration.
  - apply keeps_get_relevant_context.
  - apply keeps_answer_question.
  - apply keeps_generate_structured_output.
Qed.

Lemma run_calls_keep_configuration cs st :
  configuration (self (run_calls C st cs)) = configuration (self st).
Proof.
  revert st. induction cs as [| c cs IH]; intros st; simpl.
  - reflexivity.
  - unfold run_calls in *. rewrite IH. apply run_call_keeps_configuration.
Qed.

(** X9: the configuration is fixed for the lifetime of the object.  No
    sequence of method calls changes the model name, the model type, the
    token margin, the embedding size or k; so the chunk budget stays the
    same, and [split_document] cuts a document the same way before and after
    the calls. *)
Theorem configuration_is_fixed :
  forall (st : state) (cs : list method_call) (document : string),
    let st1 := run_calls C st cs in
    model_name (self st1) = model_name (self st) /\
    quest_ans_tokens_margin (self st1) = quest_ans_tokens_margin (self st) /\
    embedding_size (self st1) = embedding_size (self st) /\
    rag_k_nearest_neighbors (self st1) = rag_k_nearest_neighbors (self st) /\
    max_chunk_size C (self st1) = max_chunk_size C (self st) /\
    split_document C (self st1) document = split_document C (self st) document.
Proof.
  intros st cs document st1.
  pose proof (run_calls_keep_configuration cs st) as H.
  fold st1 in H. unfold configuration in H.
  inversion H as [[Hname Htype Hmargin Hsize Hk]].
  assert (Hbudget : max_chunk_size C (self st1) = max_chunk_size C (self st))
    by (unfold max_chunk_size; rewrite Hmargin; reflexivity).
  repeat split; try assumption.
  unfold split_document. rewrite Hbudget. reflexivity.
Qed.

(** X10: the query and generation methods are read-only.  Whether they
    return or raise, [summarize_chunk], [get_embedding],
    [get_relevant_context], [generate_structured_output] and
    [answer_question] leave every attribute of the object as it was. *)
Theorem queries_leave_object_unchanged :
  forall st : state,
    (forall max_length chunk,
        self (snd (summarize_chunk C max_length chunk st)) = self st) /\
    (forall text, self (snd (get_embedding C text st)) = self st) /\
    (forall question,
        self (snd (get_relevant_context C question st)) = self st) /\
    (forall prompt output_structure max_length,
        self (snd (generate_structured_output C prompt output_structure
                     max_length st)) = self st) /\
    (forall prompt use_rag max_length output_structure,
        self (snd (answer_question C prompt use_rag max_length
                     output_structure st)) = self st).
Proof.
  intros st. split; [| split; [| split; [| split]]].
  - intros ml chunk. apply (keeps_summarize_chunk C (fun s => s)).
  - intros text. apply (keeps_get_embedding C (fun s => s)).
  - intros question. apply (keeps_get_relevant_context C (fun s => s)).
  - intros prompt os ml.
    apply (keeps_generate_structured_output C (fun s => s)).
  - intros prompt use_rag ml os.
    apply (keeps_answer_question C (fun s => s)).
Qed.

Lemma mapM_length {A B} (f : A -> M B) (l : list A) st ys st1 :
  mapM f l st = (Ok ys, st1) -> List.length ys = List.length l.
Proof.
  revert st ys st1. induction l as [| x l IH]; intros st ys st1; simpl.
  - unfold ret. intros H. inversion H. reflexivity.
  - unfold bind at 1. destruct (f x st) as [[y | e] st0]; [| discriminate].
    unfold bind at 1.
    destruct (mapM f l st0) as [[ys0 | e] st2] eqn:E; [| discriminate].
    unfold ret. intros H. inversion H; subst. simpl.
    f_equal. eapply IH. exact E.
Qed.

(** What a returning [add_rag_data] went through. *)
Lemma add_rag_data_ok_inv documents use_summaries st st1 :
  add_rag_data C documents use_summaries st = (Ok tt, st1) ->
  let all_chunks := flat_map (split_document C (self st)) documents in
  exists texts st0 new_rows st2,
    (if use_summaries
     then mapM (summarize_chunk C 100) all_chunks st
     else (Ok all_chunks, st)) = (Ok texts, st0) /\
    get_embedding C (TList texts)
      (snd (set_rag_data (rag_data (self st0) ++ texts) st0))
    = (Ok new_rows, st2) /\
    rag_data (self st1) = rag_data (self st) ++ texts /\
    rag_embeddings (self st1) = Some (embedding_rows (self st) ++ new_rows) /\
    calls st1 =
    calls st2 ++
    [PrintAdded (List.length all_chunks) (List.length documents)
       (List.length (rag_data (self st) ++ texts))].
Proof.
  rewrite add_rag_data_unfold. cbv zeta. intros H.
  assert (Hself0 : forall texts st0,
    (if use_summaries
     then mapM (summarize_chunk C 100)
            (flat_map (split_document C (self st)) documents) st
     else (Ok (flat_map (split_document C (self st)) documents), st))
    = (Ok texts, st0) -> self st0 = self st).
  { intros texts st0 E. destruct use_summaries.
    - pose proof (mapM_summarize_self C
                    (flat_map (split_document C (self st)) documents) st)
        as H1.
      rewrite E in H1. exact H1.
    - inversion E. reflexivity. }
  destruct (if use_summaries
            then mapM (summarize_chunk C 100)
                   (flat_map (split_document C (self st)) documents) st
            else (Ok (flat_map (split_document C (self st)) documents), st))
    as [[texts | e] st0] eqn:E; [| discriminate].
  specialize (Hself0 texts st0 eq_refl).
  cbv zeta in H. unfold set_rag_data. simpl snd.
  match type of H with
  | context [get_embedding C ?t ?x] =>
      pose proof (get_embedding_self C t x) as H2;
      destruct (get_embedding C t x) as [[new | e2] st2] eqn:E2
  end; [| discriminate].
  simpl in H2. inversion H; subst st1. clear H.
  exists texts, st0, new, st2.
  split; [reflexivity |]. split; [exact E2 |].
  simpl. rewrite H2. simpl. rewrite Hself0.
  unfold embedding_rows.
  destruct (rag_embeddings (self st)); repeat split; reflexivity.
Qed.

(** What a raising [add_rag_data] left. *)
Lemma add_rag_data_raise_inv documents use_summaries st e st1 :
  add_rag_data C documents use_summaries st = (Raise e, st1) ->
  rag_embeddings (self st1) = rag_embeddings (self st) /\
  exists texts, rag_data (self st1) = rag_data (self st) ++ texts.
Proof.
  intros H.
  split; [eapply add_rag_data_raise_keeps_embeddings; exact H |].
  revert H. rewrite add_rag_data_unfold. cbv zeta.
  destruct use_summaries.
  - pose proof (mapM_summarize_self C
                  (flat_map (split_document C (self st)) documents) st) as H1.
    destruct (mapM _ _ st) as [[texts | e1] st0]; simpl in H1.
    + match goal with
      | |- context [get_embedding C ?t ?x] =>
          pose proof (get_embedding_self C t x) as H2;
          destruct (get_embedding C t x) as [[new | e2] st2]
      end; simpl in *; intros H; inversion H; subst.
      exists texts. rewrite H2. simpl. rewrite H1. reflexivity.
    + intros H; inversion H; subst.
      exists []. rewrite H1, app_nil_r. reflexivity.
  - match goal with
    | |- context [get_embedding C ?t ?x] =>
        pose proof (get_embedding_self C t x) as H2;
        destruct (get_embedding C t x) as [[new | e2] st2]
    end; simpl in *; intros H; inversion H; subst.
    eexists. rewrite H2. reflexivity.
Qed.

Lemma add_rag_data_appends documents use_summaries st :
  exists texts rows,
    rag_data (self (snd (add_rag_data C documents use_summaries st))) =
    rag_data (self st) ++ texts /\
    embedding_rows (self (snd (add_rag_data C documents use_summaries st))) =
    embedding_rows (self st) ++ rows /\
    (rag_embeddings (self st) <> None ->
     rag_embeddings (self (snd (add_rag_data C documents use_summaries st)))
     <> None).
Proof.
  destruct (add_rag_data C documents use_summaries st) as [[[] | e] st1] eqn:E.
  - destruct (add_rag_data_ok_inv documents use_summaries st st1 E)
      as (texts & _ & rows & _ & _ & _ & Hdata & Hrows & _).
    exists texts, rows. simpl. unfold embedding_rows at 1. rewrite Hrows.
    repeat split; [exact Hdata | discriminate].
  - destruct (add_rag_data_raise_inv documents use_summaries st e st1 E)
      as (Hrows & texts & Hdata).
    exists texts, []. simpl. unfold embedding_rows. rewrite Hrows, app_nil_r.
    repeat split; [exact Hdata | auto].
Qed.

Lemma run_call_appends st c :
  exists texts rows,
    rag_data (self (run_call C st c)) = rag_data (self st) ++ texts /\
    embedding_rows (self (run_call C st c)) =
    embedding_rows (self st) ++ rows /\
    (rag_embeddings (self st) <> None ->
     rag_embeddings (self (run_call C st c)) <> None).
Proof.
  assert (Hsame : forall st1, self st1 = self st ->
    exists texts rows,
      rag_data (self st1) = rag_data (self st) ++ texts /\
      embedding_rows (self st1) = embedding_rows (self st) ++ rows /\
      (rag_embeddings (self st) <> None -> rag_embeddings (self st1) <> None)).
  { intros st1 H. exists [], []. rewrite H, !app_nil_r. auto. }
  destruct c; simpl.
  - apply Hsame. apply (keeps_summarize_chunk C (fun s => s)).
  - apply Hsame. apply (keeps_get_embedding C (fun s => s)).
  - apply add_rag_data_appends.
  - apply Hsame. apply (keeps_get_relevant_context C (fun s => s)).
  - apply Hsame. apply (keeps_answer_question C (fun s => s)).
  - apply Hsame. apply (keeps_generate_structured_output C (fun s => s)).
Qed.

(** X11: the store is append-only.  Over any sequence of method calls,
    returning or raising, the texts held before are a prefix of the texts
    held after, the embedding rows held before are a prefix of the rows held
    after, and [rag_embeddings], once set, is never [None] again. *)
Theorem store_is_append_only :
  forall (st : state) (cs : list method_call),
    let st1 := run_calls C st cs in
    exists texts rows,
      rag_data (self st1) = rag_data (self st) ++ texts /\
      embedding_rows (self st1) = embedding_rows (self st) ++ rows /\
      (rag_embeddings (self st) <> None -> rag_embeddings (self st1) <> None).
Proof.
  intros st cs. cbv zeta. revert st.
  induction cs as [| c cs IH]; intros st.
  - exists [], []. simpl. rewrite !app_nil_r. auto.
  - simpl. destruct (run_call_appends st c) as (t1 & r1 & Hd1 & He1 & Hn1).
    destruct (IH (run_call C st c)) as (t2 & r2 & Hd2 & He2 & Hn2).
    exists (t1 ++ t2), (r1 ++ r2). unfold run_calls in *.
    rewrite Hd2, Hd1, He2, He1, !app_assoc. auto.
Qed.

End Lifetime.

(** ** Ingestion, step by step *)

Section Ingestion.

Variable C : Collaborators.

(** X12: what a returning [add_rag_data] stored and reported.  It appends
    one text per chunk of the documents, in order: the chunks themselves, or
    their summaries when [use_summaries] is set (the raw chunks are then not
    kept); it appends the rows [get_embedding] returned for those texts; and
    the last thing it does is report the number of chunks, the number of
    documents and the new total, which is the old total plus the number of
    chunks. *)
Theorem add_rag_data_stores_and_reports :
  forall (documents : list string) (use_summaries : bool) (st st1 : state),
    add_rag_data C documents use_summaries st = (Ok tt, st1) ->
    let all_chunks := flat_map (split_document C (self st)) documents in
    exists texts new_rows earlier,
      List.length texts = List.length all_chunks /\
      (use_summaries = false -> texts = all_chunks) /\
      (use_summaries = true ->
       exists st0,
         mapM (summarize_chunk C 100) all_chunks st = (Ok texts, st0)) /\
      (exists st2 st3,
          get_embedding C (TList texts) st2 = (Ok new_rows, st3)) /\
      rag_data (self st1) = rag_data (self st) ++ texts /\
      rag_embeddings (self st1) = Some (embedding_rows (self st) ++ new_rows)
      /\
      calls st1 =
      earlier ++
      [PrintAdded (List.length all_chunks) (List.length documents)
         (List.length (rag_data (self st)) + List.length all_chunks)].
Proof.
  intros documents use_summaries st st1 H all_chunks.
  destruct (add_rag_data_ok_inv C documents use_summaries st st1 H)
    as (texts & st0 & new_rows & st2 & Htexts & Hemb & Hdata & Hrows & Hcalls).
  fold all_chunks in Htexts, Hcalls.
  assert (Hlen : List.length texts = List.length all_chunks).
  { destruct use_summaries.
    - eapply mapM_length. exact Htexts.
    - inversion Htexts. reflexivity. }
  exists texts, new_rows, (calls st2).
  split; [exact Hlen |].
  split; [intros ->; inversion Htexts; reflexivity |].
  split; [intros ->; exists st0; exact Htexts |].
  split; [eauto |].
  split; [exact Hdata |]. split; [exact Hrows |].
  rewrite Hcalls, length_app, Hlen. reflexivity.
Qed.

(** X13: an add that produces no chunk and whose empty batch the tokenizer
    refuses changes nothing.  [add_rag_data] then raises the tokenizer's
    exception, with or without summaries; the object is as it was before the
    call, so on a store that never took an embedding [rag_embeddings] is
    still [None] and a later query returns the empty string. *)
Theorem add_without_chunks_changes_nothing :
  forall (documents : list string) (use_summaries : bool) (st : state)
         (e : exn),
    flat_map (split_document C (self st)) documents = [] ->
    tokenizer_call C (calls st) [] true = Raise e ->
    exists st1,
      add_rag_data C documents use_summaries st = (Raise e, st1) /\
      self st1 = self st /\
      (rag_embeddings (self st) = None ->
       forall question,
         get_relevant_context C question st1 = (Ok EmptyString, st1)).
Proof.
  intros documents use_summaries st e Hchunks Htok.
  assert (Hrun : exists st1,
             add_rag_data C documents use_summaries st = (Raise e, st1) /\
             self st1 = self st).
  { unfold add_rag_data. unfold bind at 1. unfold get_self at 1.
    cbv zeta. rewrite Hchunks.
    destruct use_summaries; simpl;
      unfold get_embedding, tokenize;
      unfold bind, get_self, set_rag_data, invoke, ret; simpl;
      rewrite Htok; simpl;
      eexists; (split; [reflexivity |]); simpl;
      rewrite app_nil_r; destruct (self st); reflexivity. }
  destruct Hrun as (st1 & Hrun & Hself).
  exists st1. split; [exact Hrun |]. split; [exact Hself |].
  intros Hnone question.
  apply get_relevant_context_no_embeddings. rewrite Hself. exact Hnone.
Qed.

(** X14: [get_embedding] gives one row per text.  With a tokenizer and a
    model that keep the batch size, a returning call has as many rows as it
    was given texts, exactly one for a single string; it leaves the object
    as it was, and it made exactly two calls: the tokenizer with padding,
    then the encoder or the full model. *)
Theorem get_embedding_one_row_per_text :
  forall (text : text_arg) (st st1 : state) (t : tensor),
    batch_faithful C ->
    get_embedding C text st = (Ok t, st1) ->
    List.length t =
    match text with TStr _ => 1%nat | TList l => List.length l end /\
    self st1 = self st /\
    exists inputs,
      calls st1 =
      calls st ++
      [TokenizerCall (match text with TStr s => [s] | TList l => l end) true;
       if String.eqb (model_type (self st)) "seq2seq"
       then Encoder inputs else Forward inputs].
Proof.
  intros text st st1 t HC H.
  split; [| split].
  - destruct text as [s | l].
    + change (get_embedding C (TStr s) st)
        with (get_embedding C (TList [s]) st) in H.
      apply (get_embedding_rows C [s] st t st1 HC H).
    + apply (get_embedding_rows C l st t st1 HC H).
  - pose proof (get_embedding_self C text st) as Hs.
    rewrite H in Hs. exact Hs.
  - revert H. unfold get_embedding, tokenize, bind, invoke, get_self, ret.
    simpl.
    destruct (tokenizer_call C (calls st) _ true) as [inputs | e];
      [| discriminate].
    simpl. exists inputs.
    destruct (String.eqb (model_type (self st)) "seq2seq"); simpl in *.
    + destruct (model_encoder C _ inputs); [| discriminate].
      inversion H; subst. simpl. rewrite <- app_assoc. reflexivity.
    + destruct (model_forward C _ inputs); [| discriminate].
      inversion H; subst. simpl. rewrite <- app_assoc. reflexivity.
Qed.

End Ingestion.

(** ** Retrieval and answers: further cases *)

Section QueryCases.

Variable C : Collaborators.

Lemma map_nth_seq (l : list string) (d : string) :
  map (fun i => nth i l d) (seq 0 (List.length l)) = l.
Proof.
  induction l as [| x l IH]; simpl; [reflexivity |].
  f_equal. rewrite <- seq_shift, map_map. exact IH.
Qed.

(** X15: with k equal to the store size, a query returns every stored text
    exactly once.  On a store with one embedding row per text, the texts
    joined by [get_relevant_context] are then a permutation of [rag_data]. *)
Theorem get_relevant_context_whole_store :
  forall (question : string) (st st1 : state) (embeddings : tensor) (q : vec),
    rag_embeddings (self st) = Some embeddings ->
    store_ok (self st) ->
    rag_k_nearest_neighbors (self st) = Z.of_nat (List.length embeddings) ->
    get_embedding C (TStr question) st = (Ok [q], st1) ->
    exists returned : list string,
      get_relevant_context C question st =
      (Ok (String.concat " " returned), st1) /\
      Permutation returned (rag_data (self st)).
Proof.
  intros question st st1 embeddings q Hemb Hok Hk Hq.
  destruct (get_relevant_context_in_range C question st embeddings q st1
              Hemb Hok) as (indices & _ & Hctx & Hcount & Hnd & Hin).
  { rewrite Hk. lia. }
  { exact Hq. }
  exists (map (fun i => nth i (rag_data (self st)) EmptyString) indices).
  split; [exact Hctx |].
  assert (Hn : List.length (rag_data (self st)) = List.length embeddings).
  { unfold store_ok in Hok. rewrite Hemb in Hok. exact Hok. }
  assert (Hperm : Permutation indices
                    (seq 0 (List.length (rag_data (self st))))).
  { apply NoDup_Permutation_bis; [exact Hnd | |].
    - rewrite length_seq, Hn. lia.
    - intros i Hi. rewrite Forall_forall in Hin.
      apply in_seq. specialize (Hin i Hi). lia. }
  apply (Permutation_map
           (fun i => nth i (rag_data (self st)) EmptyString)) in Hperm.
  rewrite map_nth_seq in Hperm. exact Hperm.
Qed.

(** X16: a failure of [json.loads] that is not a JSONDecodeError is caught
    by the outer handler of [generate_structured_output]: once [json.dumps]
    has rendered the structure and the generation steps have given a
    response, the result is the record
    {"error": "An error occurred: <message>"}, and the raw response is not
    in it. *)
Theorem generate_structured_output_other_parse_fault :
  forall (prompt : string) (output_structure : list (string * pyvalue))
         (max_length : Z) (st st1 : state) (rendering response : string)
         (e : exn),
    json_dumps_indent2 C (PDict output_structure) = Ok rendering ->
    generation_steps C (structure_prompt prompt rendering) max_length st =
    (Ok response, st1) ->
    json_loads C response = Raise e ->
    exn_kind e <> JSONDecodeError ->
    generate_structured_output C prompt output_structure max_length st =
    (Ok (JObj [("error", JStr ("An error occurred: " ++ exn_str e)%string)]),
     st1).
Proof.
  intros prompt os ml st st1 rendering response e Hdumps Hgen Hloads Hkind.
  rewrite generate_structured_output_unfold, Hdumps, Hgen, Hloads.
  destruct (exn_kind e); try reflexivity. congruence.
Qed.

(** X17: with a non-empty [output_structure], [answer_question] hands the
    assembled prompt, context included, to [generate_structured_output] and
    its outcome is the outcome of that call.  When [json.dumps] refuses the
    structure, its exception comes out of [answer_question]; when it renders
    the structure, [answer_question] returns, and if the response parses,
    the value returned is whatever [json.loads] gave, be it an object, a
    string or null. *)
Theorem answer_question_structured_path :
  forall (prompt : string) (use_rag : bool) (max_length : Z)
         (field : string * pyvalue) (fields : list (string * pyvalue))
         (st st1 : state) (full_prompt : string),
    assemble_prompt C prompt use_rag st = (Ok full_prompt, st1) ->
    let run :=
      answer_question C prompt use_rag max_length (Some (field :: fields)) st
    in
    run =
    generate_structured_output C full_prompt (field :: fields) max_length st1
    /\
    (forall e,
        json_dumps_indent2 C (PDict (field :: fields)) = Raise e ->
        run = (Raise e, st1)) /\
    (forall rendering,
        json_dumps_indent2 C (PDict (field :: fields)) = Ok rendering ->
        (exists j st2, run = (Ok j, st2)) /\
        (forall response st2 v,
            generation_steps C (structure_prompt full_prompt rendering)
              max_length st1 = (Ok response, st2) ->
            json_loads C response = Ok v ->
            run = (Ok v, st2))).
Proof.
  intros prompt use_rag ml field fields st st1 full Hfull run.
  assert (Hrun : run =
                 generate_structured_output C full (field :: fields) ml st1).
  { unfold run. rewrite answer_question_unfold, Hfull.
    apply answer_prompt_structured. }
  split; [exact Hrun |]. split.
  - intros e He. rewrite Hrun.
    apply generate_structured_output_dumps_fault. exact He.
  - intros rendering Hr. split.
    + rewrite Hrun.
      apply (generate_structured_output_returns C full (field :: fields) ml
               st1 rendering Hr).
    + intros response st2 v Hgen Hloads.
      rewrite Hrun, generate_structured_output_unfold, Hr, Hgen, Hloads.
      reflexivity.
Qed.

Lemma run_adds_keep_k adds st :
  rag_k_nearest_neighbors (self (snd (run_adds C adds st))) =
  rag_k_nearest_neighbors (self st).
Proof.
  revert st. induction adds as [| [documents use_summaries] rest IH];
    intros st; simpl.
  - reflexivity.
  - pose proof (add_rag_data_keeps_configuration C documents use_summaries st)
      as Hc.
    destruct (add_rag_data C documents use_summaries st) as [r st1].
    specialize (IH st1). destruct (run_adds C rest st1) as [rs st2].
    simpl in *. rewrite IH. unfold configuration in Hc.
    inversion Hc. reflexivity.
Qed.

(** X18: ingest, then query.  After construction and any sequence of
    [add_rag_data] calls that all returned and left at least three texts,
    with an embedder that keeps the batch size, a query whose question is
    embedded returns the join of exactly three stored texts, at distinct
    positions of the store. *)
Theorem ingest_then_query :
  forall (name mtype : string) (margin : Z) (tr tr1 : trace)
         (obj : LLMQuestionAnswerer) (adds : list (list string * bool))
         (question : string) (t : tensor) (st1 : state),
    batch_faithful C ->
    init C name mtype margin tr = (Ok obj, tr1) ->
    Forall (fun r => r = Ok tt) (fst (run_adds C adds (mkState obj tr1))) ->
    let st := snd (run_adds C adds (mkState obj tr1)) in
    (3 <= List.length (rag_data (self st)))%nat ->
    get_embedding C (TStr question) st = (Ok t, st1) ->
    exists indices : list nat,
      get_relevant_context C question st =
      (Ok (String.concat " "
             (map (fun i => nth i (rag_data (self st)) EmptyString) indices)),
       st1) /\
      List.length indices = 3%nat /\
      NoDup indices /\
      Forall (fun i => (i < List.length (rag_data (self st)))%nat) indices.
Proof.
  intros name mtype margin tr tr1 obj adds question t st1 HC Hinit Hall st
    Hthree Hq.
  destruct (init_no_embeddings C _ _ _ _ _ _ Hinit)
    as (Hdata & Hnone & _ & Hk & _).
  assert (Hok : store_ok (self st)).
  { apply run_adds_ok_store; [exact HC | | exact Hall].
    unfold store_ok. simpl. rewrite Hdata, Hnone. reflexivity. }
  assert (Hk3 : rag_k_nearest_neighbors (self st) = 3).
  { unfold st. rewrite run_adds_keep_k. exact Hk. }
  destruct (rag_embeddings (self st)) as [embeddings |] eqn:Hemb.
  2: { unfold store_ok in Hok. rewrite Hemb in Hok. simpl in Hok. lia. }
  assert (Hn : List.length (rag_data (self st)) = List.length embeddings).
  { unfold store_ok in Hok. rewrite Hemb in Hok. exact Hok. }
  change (get_embedding C (TStr question) st)
    with (get_embedding C (TList [question]) st) in Hq.
  pose proof (get_embedding_rows C [question] st t st1 HC Hq) as Hrows.
  destruct t as [| q [| q' t]]; try discriminate.
  destruct (get_relevant_context_in_range C question st embeddings q st1
              Hemb Hok) as (indices & _ & Hctx & Hcount & Hnd & Hin).
  { rewrite Hk3. lia. }
  { exact Hq. }
  exists indices. rewrite Hn.
  split; [exact Hctx |]. split; [lia |]. split; assumption.
Qed.

End QueryCases.

(** ** Runs on concrete collaborators: further properties *)

(** Three short sentences fit the budget of 412 tokens. *)
Lemma split_document_fits_one_chunk_witness :
  split_document Toy.collaborators (self Toy.fresh) "Aa. Bb. Cc dd." =
  ["Aa. Bb. Cc dd."].
Proof.
  exact (split_document_fits_one_chunk Toy.collaborators (self Toy.fresh)
           "Aa. Bb. Cc dd."
           ltac:(vm_compute; discriminate) ltac:(vm_compute; discriminate)).
Defined.

(** With a margin of 600 on a model of 512 positions the budget is
    negative. *)
Lemma split_document_one_sentence_per_chunk_witness :
  let s := mkSelf "google/flan-t5-base" "seq2seq" 600 [] None 1 3 in
  max_chunk_size Toy.collaborators s = -88 /\
  split_document Toy.collaborators s "Aa. Bb." = ["Aa."; "Bb."].
Proof.
  cbv zeta. split; [reflexivity |].
  exact (split_document_one_sentence_per_chunk Toy.collaborators
           (mkSelf "google/flan-t5-base" "seq2seq" 600 [] None 1 3) "Aa. Bb."
           (or_introl eq_refl)).
Defined.

(** The question of a query on a seq2seq object goes through the encoder. *)
Lemma embedding_path_follows_model_type_witness :
  let cs := [CallAdd Toy.four_documents false; CallContext "B?"] in
  In (Encoder [[66; 63]]) (added_by_calls Toy.collaborators Toy.fresh cs) /\
  model_type (self Toy.fresh) = "seq2seq".
Proof.
  cbv zeta.
  assert (Hin : In (Encoder [[66; 63]])
                  (added_by_calls Toy.collaborators Toy.fresh
                     [CallAdd Toy.four_documents false; CallContext "B?"])).
  { vm_compute. auto 10. }
  split; [exact Hin |].
  exact (embedding_path_follows_model_type Toy.collaborators Toy.fresh
           [CallAdd Toy.four_documents false; CallContext "B?"]
           (Encoder [[66; 63]]) Hin).
Defined.

(** Two documents, summarized: two texts stored, and the report says so. *)
Lemma add_rag_data_stores_and_reports_witness :
  let run := add_rag_data Toy.collaborators ["Aa. Bb."; "C."] true Toy.fresh in
  fst run = Ok tt /\
  exists texts new_rows earlier,
    List.length texts = 2%nat /\
    rag_data (self (snd run)) = texts /\
    rag_embeddings (self (snd run)) = Some new_rows /\
    calls (snd run) = earlier ++ [PrintAdded 2 2 2].
Proof.
  cbv zeta. split; [vm_compute; reflexivity |].
  destruct (add_rag_data_stores_and_reports Toy.collaborators
              ["Aa. Bb."; "C."] true Toy.fresh
              (snd (add_rag_data Toy.collaborators ["Aa. Bb."; "C."] true
                      Toy.fresh)))
    as (texts & new_rows & earlier & Hlen & _ & _ & _ & Hdata & Hrows & Hcalls).
  - vm_compute. reflexivity.
  - exists texts, new_rows, earlier.
    split; [exact Hlen |]. split; [exact Hdata |].
    split; [exact Hrows | exact Hcalls].
Defined.

(** An add of no document on a fresh object, then a query. *)
Lemma add_without_chunks_changes_nothing_witness :
  let run := add_rag_data strict_tokenizer [] false Toy.fresh in
  fst run = Raise (mkExn IndexError "list index out of range") /\
  self (snd run) = self Toy.fresh /\
  fst (get_relevant_context strict_tokenizer "B?" (snd run)) =
  Ok EmptyString.
Proof.
  cbv zeta.
  destruct (add_without_chunks_changes_nothing strict_tokenizer [] false
              Toy.fresh (mkExn IndexError "list index out of range")
              eq_refl eq_refl) as (st1 & Hrun & Hself & Hquery).
  rewrite Hrun. simpl.
  split; [reflexivity |]. split; [exact Hself |].
  rewrite (Hquery eq_refl "B?"). reflexivity.
Defined.

(** One question, one row. *)
Lemma get_embedding_one_row_per_text_witness :
  exists t st1,
    get_embedding Toy.collaborators (TStr "B?") Toy.fresh = (Ok t, st1) /\
    List.length t = 1%nat /\
    self st1 = self Toy.fresh.
Proof.
  exists [[(129 # 2)%Q]],
         (snd (get_embedding Toy.collaborators (TStr "B?") Toy.fresh)).
  assert (H : get_embedding Toy.collaborators (TStr "B?") Toy.fresh =
              (Ok [[(129 # 2)%Q]],
               snd (get_embedding Toy.collaborators (TStr "B?") Toy.fresh)))
    by (vm_compute; reflexivity).
  split; [exact H |].
  destruct (get_embedding_one_row_per_text Toy.collaborators (TStr "B?")
              Toy.fresh _ _ toy_batch_faithful H) as (Hlen & Hself & _).
  split; [exact Hlen | exact Hself].
Defined.

(** A store of three chunks queried with k = 3 gives back all three. *)
Lemma get_relevant_context_whole_store_witness :
  let st := Toy.stocked Toy.collaborators ["A."; "B."; "C."] in
  exists returned : list string,
    fst (get_relevant_context Toy.collaborators "B?" st) =
    Ok (String.concat " " returned) /\
    Permutation returned ["A."; "B."; "C."].
Proof.
  cbv zeta.
  edestruct (get_relevant_context_whole_store Toy.collaborators "B?"
               (Toy.stocked Toy.collaborators ["A."; "B."; "C."]))
    as (returned & Hrun & Hperm).
  - vm_compute. reflexivity.
  - vm_compute. reflexivity.
  - vm_compute. reflexivity.
  - vm_compute. reflexivity.
  - exists returned. rewrite Hrun. split; [reflexivity | exact Hperm].
Defined.

(** A response that makes [json.loads] give up on nesting. *)
Lemma generate_structured_output_other_parse_fault_witness :
  fst (generate_structured_output
         (with_json_loads Toy.collaborators loads_too_deep) "Who?"
         [("name", PJson (JStr "string"))] 200 Toy.fresh) =
  Ok (JObj [("error",
             JStr "An error occurred: maximum recursion depth exceeded while decoding a JSON array")]).
Proof.
  rewrite (generate_structured_output_other_parse_fault
             (with_json_loads Toy.collaborators loads_too_deep) "Who?"
             [("name", PJson (JStr "string"))] 200 Toy.fresh
             (snd (generation_steps
                     (with_json_loads Toy.collaborators loads_too_deep)
                     (structure_prompt "Who?" "{}") 200 Toy.fresh))
             "{}" "ok"
             (mkExn OtherException
                "maximum recursion depth exceeded while decoding a JSON array")).
  - reflexivity.
  - reflexivity.
  - vm_compute. reflexivity.
  - reflexivity.
  - discriminate.
Defined.

(** A structure of one field: a model that answers "null" gives null, and
    a field holding the type [str] gives the TypeError of [json.dumps]. *)
Lemma answer_question_structured_path_witness :
  fst (answer_question Toy.null_generator "Who?" false 200
         (Some [("name", PJson (JStr "string"))]) Toy.fresh) =
  Ok JNull /\
  answer_question Toy.null_generator "Who?" false 200
    (Some [("name", PObject "<class 'str'>")]) Toy.fresh =
  (Raise (mkExn TypeError "Object of type type is not JSON serializable"),
   Toy.fresh).
Proof.
  split.
  - destruct (answer_question_structured_path Toy.null_generator "Who?" false
                200 ("name", PJson (JStr "string")) [] Toy.fresh Toy.fresh
                (plain_prompt "Who?") eq_refl) as (_ & _ & Hok).
    destruct (Hok "{}" eq_refl) as (_ & Hvalue).
    rewrite (Hvalue "null"
               (snd (generation_steps Toy.null_generator
                       (structure_prompt (plain_prompt "Who?") "{}") 200
                       Toy.fresh)) JNull).
    + reflexivity.
    + vm_compute. reflexivity.
    + reflexivity.
  - destruct (answer_question_structured_path Toy.null_generator "Who?" false
                200 ("name", PObject "<class 'str'>") [] Toy.fresh Toy.fresh
                (plain_prompt "Who?") eq_refl) as (_ & Hfault & _).
    apply Hfault. reflexivity.
Defined.

(** Four documents go in, and the query returns three of them. *)
Lemma ingest_then_query_witness :
  let loaded :=
    [LoadTokenizer "google/flan-t5-base"; LoadSeq2Seq "google/flan-t5-base"] in
  let st :=
    snd (run_adds Toy.collaborators [(Toy.four_documents, false)]
           (mkState (self Toy.fresh) loaded)) in
  exists indices : list nat,
    fst (get_relevant_context Toy.collaborators "B?" st) =
    Ok (String.concat " "
          (map (fun i => nth i (rag_data (self st)) EmptyString) indices)) /\
    List.length indices = 3%nat.
Proof.
  cbv zeta.
  edestruct (ingest_then_query Toy.collaborators "google/flan-t5-base"
               "seq2seq" 100 []
               [LoadTokenizer "google/flan-t5-base";
                LoadSeq2Seq "google/flan-t5-base"]
               (self Toy.fresh) [(Toy.four_documents, false)] "B?")
    as (indices & Hrun & Hcount & _).
  - exact toy_batch_faithful.
  - reflexivity.
  - vm_compute. repeat constructor.
  - vm_compute. lia.
  - vm_compute. reflexivity.
  - exists indices. rewrite Hrun. split; [reflexivity | exact Hcount].
Defined.

(** ** More of the chunker, of ingestion and of the prompts *)

Section MoreCases.

Variable C : Collaborators.

Lemma join_nonempty (sep x : string) (l : list string) :
  x <> EmptyString -> String.concat sep (x :: l) <> EmptyString.
Proof.
  intros Hx. destruct x as [| c x]; [congruence |].
  destruct l; simpl; discriminate.
Qed.

(** X19: no empty chunk.  When the sentence splitter gives no empty
    sentence, no chunk of [split_document] is the empty string. *)
Theorem split_document_no_empty_chunk :
  forall (s : LLMQuestionAnswerer) (document : string),
    Forall (fun x => x <> EmptyString) (sent_tokenize C document) ->
    Forall (fun chunk => chunk <> EmptyString) (split_document C s document).
Proof.
  intros s document Hsent.
  destruct (split_groups_spec C (max_chunk_size C s) (sent_tokenize C document))
    as (Hcat & Hne & _).
  unfold split_document. rewrite split_sentences_groups.
  set (groups := split_groups C (max_chunk_size C s)
                   (sent_tokenize C document)) in *.
  rewrite <- Hcat in Hsent. clearbody groups. clear Hcat.
  induction groups as [| g gs IH]; simpl; constructor.
  - inversion Hne as [| ? ? Hg _]; subst.
    destruct g as [| x g]; [congruence |].
    apply join_nonempty. simpl in Hsent.
    inversion Hsent as [| ? ? Hx _]. exact Hx.
  - inversion Hne as [| ? ? _ Hgs]; subst.
    simpl in Hsent. apply Forall_app in Hsent.
    apply IH; [apply Hsent | exact Hgs].
Qed.

Lemma split_sentences_single (budget : Z) (x : string) :
  split_sentences C budget [x] = [x].
Proof.
  unfold split_sentences. simpl.
  destruct (Z.of_nat (List.length (tokenizer_encode C x)) >? budget);
    reflexivity.
Qed.

Lemma flat_map_single {A B} (f g : A -> list B) (l : list A) :
  Forall (fun d => f d = g d) l -> flat_map f l = flat_map g l.
Proof.
  induction 1 as [| d l Hd _ IH]; simpl; [reflexivity |].
  rewrite Hd, IH. reflexivity.
Qed.

(** X20: documents of one sentence each are stored as they are.  Whatever
    the budget, each such document gives one chunk, its sentence; so the
    number of chunks is the number of documents, and a returning
    [add_rag_data] without summaries appends exactly those sentences. *)
Theorem one_sentence_documents_one_chunk_each :
  forall (documents : list string) (st : state),
    Forall (fun d => exists x, sent_tokenize C d = [x]) documents ->
    let all_chunks := flat_map (split_document C (self st)) documents in
    all_chunks = flat_map (sent_tokenize C) documents /\
    List.length all_chunks = List.length documents /\
    (forall st1,
        add_rag_data C documents false st = (Ok tt, st1) ->
        rag_data (self st1) =
        rag_data (self st) ++ flat_map (sent_tokenize C) documents).
Proof.
  intros documents st Hone all_chunks.
  assert (Hchunks : all_chunks = flat_map (sent_tokenize C) documents).
  { apply flat_map_single. eapply Forall_impl; [| exact Hone].
    intros d [x Hx]. unfold split_document. rewrite Hx.
    apply split_sentences_single. }
  split; [exact Hchunks |]. split.
  - rewrite Hchunks. clear Hchunks all_chunks.
    induction Hone as [| d l [x Hx] _ IH]; simpl; [reflexivity |].
    rewrite Hx, length_app, IH. reflexivity.
  - intros st1 Hrun.
    destruct (add_rag_data_ok_inv C documents false st st1 Hrun)
      as (texts & st0 & rows & st2 & Htexts & _ & Hdata & _).
    inversion Htexts; subst. fold all_chunks in Hdata.
    rewrite Hdata, Hchunks. reflexivity.
Qed.

Lemma get_embedding_calls text st t st1 :
  get_embedding C text st = (Ok t, st1) ->
  exists inputs,
    calls st1 =
    calls st ++
    [TokenizerCall (match text with TStr s => [s] | TList l => l end) true;
     if String.eqb (model_type (self st)) "seq2seq"
     then Encoder inputs else Forward inputs].
Proof.
  unfold get_embedding, tokenize, bind, invoke, get_self, ret. simpl.
  destruct (tokenizer_call C (calls st) _ true) as [inputs | e];
    [| discriminate].
  simpl. intros H. exists inputs.
  destruct (String.eqb (model_type (self st)) "seq2seq"); simpl in *.
  - destruct (model_encoder C _ inputs); [| discriminate].
    inversion H; subst. simpl. rewrite <- app_assoc. reflexivity.
  - destruct (model_forward C _ inputs); [| discriminate].
    inversion H; subst. simpl. rewrite <- app_assoc. reflexivity.
Qed.

(** X21: ingestion embeds everything in one batch.  A returning
    [add_rag_data] ends with exactly one padded tokenizer call on all the
    texts it stores, one call of the encoder (seq2seq) or of the full model
    on the result, and the report; without summaries these three calls are
    all it adds to the trace, however many documents it was given. *)
Theorem add_rag_data_embeds_one_batch :
  forall (documents : list string) (use_summaries : bool) (st st1 : state),
    add_rag_data C documents use_summaries st = (Ok tt, st1) ->
    exists texts inputs earlier,
      rag_data (self st1) = rag_data (self st) ++ texts /\
      calls st1 =
      earlier ++
      [TokenizerCall texts true;
       if String.eqb (model_type (self st)) "seq2seq"
       then Encoder inputs else Forward inputs;
       PrintAdded
         (List.length (flat_map (split_document C (self st)) documents))
         (List.length documents)
         (List.length (rag_data (self st) ++ texts))] /\
      (use_summaries = false -> earlier = calls st).
Proof.
  intros documents use_summaries st st1 Hrun.
  destruct (add_rag_data_ok_inv C documents use_summaries st st1 Hrun)
    as (texts & st0 & rows & st2 & Htexts & Hemb & Hdata & _ & Hcalls).
  destruct (get_embedding_calls _ _ _ _ Hemb) as (inputs & Hc).
  assert (Htype : model_type (self st0) = model_type (self st)).
  { destruct use_summaries.
    - pose proof (mapM_summarize_self C
                    (flat_map (split_document C (self st)) documents) st)
        as H1.
      rewrite Htexts in H1. simpl in H1. rewrite H1. reflexivity.
    - inversion Htexts. reflexivity. }
  simpl in Hc. rewrite Htype in Hc.
  exists texts, inputs, (calls st0).
  split; [exact Hdata |]. split.
  - rewrite Hcalls, Hc, <- app_assoc. reflexivity.
  - intros ->. inversion Htexts. reflexivity.
Qed.

Lemma first_call_of_try {A D} (P : string -> call -> Prop)
  (c : call) (g : trace -> result D) (k : D -> M A) (h : exn -> M A) st :
  (forall a, emits P (k a)) ->
  (forall e, emits P (h e)) ->
  exists rest,
    calls (snd (try_except (bind (invoke c g) k) h st)) = calls st ++ c :: rest.
Proof.
  intros Hk Hh.
  unfold try_except. unfold bind at 1. unfold invoke at 1.
  destruct (g (calls st)) as [d | e].
  - destruct (Hk d (mkState (self st) (calls st ++ [c])))
      as (new & Hnew & _ & _).
    destruct (k d (mkState (self st) (calls st ++ [c]))) as [[a | e] st2];
      simpl in Hnew.
    + simpl. exists new. rewrite Hnew, <- app_assoc. reflexivity.
    + destruct (Hh e st2) as (new2 & Hnew2 & _ & _).
      exists (new ++ new2). rewrite Hnew2, Hnew, <- !app_assoc. reflexivity.
  - destruct (Hh e (mkState (self st) (calls st ++ [c])))
      as (new2 & Hnew2 & _ & _).
    exists new2. rewrite Hnew2. simpl. rewrite <- app_assoc. reflexivity.
Qed.

Lemma plain_answer_first_call full_prompt max_length st :
  exists rest,
    calls (snd (answer_prompt C full_prompt max_length None st)) =
    calls st ++ TokenizerCall [full_prompt] false :: rest.
Proof.
  apply (first_call_of_try (conforms true false max_length)).
  - intros inputs.
    apply emits_bind; [apply emits_generate | intros outputs].
    apply emits_bind; [apply emits_first_row | intros row].
    apply emits_bind; [apply emits_decode | intros text].
    apply emits_ret.
  - intros e. apply emits_ret.
Qed.

Lemma structured_first_call prompt output_structure max_length st rendering :
  json_dumps_indent2 C (PDict output_structure) = Ok rendering ->
  exists rest,
    calls (snd (generate_structured_output C prompt output_structure
                  max_length st)) =
    calls st ++
    TokenizerCall [structure_prompt prompt rendering] false :: rest.
Proof.
  intros Hr. unfold generate_structured_output.
  unfold bind at 1. unfold lift at 1. rewrite Hr.
  apply (first_call_of_try (conforms true false max_length)).
  - intros inputs.
    apply emits_bind; [apply emits_generate | intros outputs].
    apply emits_bind; [apply emits_first_row | intros row].
    apply emits_bind; [apply emits_decode | intros response].
    apply emits_try_except_class; [apply emits_lift | apply emits_ret].
  - intros e. apply emits_ret.
Qed.

Lemma plain_answer_first_call_falsy full_prompt max_length output_structure st :
  truthy output_structure = false ->
  exists rest,
    calls (snd (answer_prompt C full_prompt max_length output_structure st)) =
    calls st ++ TokenizerCall [full_prompt] false :: rest.
Proof.
  intros Hfalse.
  destruct output_structure as [[| field fields] |]; try discriminate;
    apply plain_answer_first_call.
Qed.

(** X22: what the model is asked.  The prompt of [answer_question] is
    "Question: <prompt>\n\nAnswer:", preceded by "Context: <context>\n\n"
    when [use_rag] is set and retrieval returned <context>.  Without a
    structure, or with an empty one, the first call after that is the
    tokenizer, without padding, on this prompt alone.  With a non-empty
    structure that [json.dumps] renders, it is the tokenizer on this prompt
    followed by the JSON instruction, so the structured prompt carries
    "Answer:" before the instruction; with one that [json.dumps] refuses, no
    call is made at all. *)
Theorem answer_question_prompt :
  forall (prompt : string) (use_rag : bool) (max_length : Z)
         (output_structure : option (list (string * pyvalue)))
         (st st1 : state) (full_prompt : string),
    assemble_prompt C prompt use_rag st = (Ok full_prompt, st1) ->
    let run :=
      answer_question C prompt use_rag max_length output_structure st in
    (use_rag = false -> full_prompt = plain_prompt prompt /\ st1 = st) /\
    (use_rag = true ->
     exists context,
       get_relevant_context C prompt st = (Ok context, st1) /\
       full_prompt = ("Context: " ++ context ++ nl ++ nl ++
                      plain_prompt prompt)%string) /\
    (truthy output_structure = false ->
     exists rest,
       calls (snd run) =
       calls st1 ++ TokenizerCall [full_prompt] false :: rest) /\
    (forall field fields,
        output_structure = Some (field :: fields) ->
        (forall rendering,
            json_dumps_indent2 C (PDict (field :: fields)) = Ok rendering ->
            exists rest,
              calls (snd run) =
              calls st1 ++
              TokenizerCall
                [(full_prompt ++ nl ++ nl ++
                  "Generate a response in the following JSON structure:" ++
                  nl ++ rendering ++ nl ++ "Response:")%string] false
              :: rest) /\
        (forall e,
            json_dumps_indent2 C (PDict (field :: fields)) = Raise e ->
            calls (snd run) = calls st1)).
Proof.
  intros prompt use_rag ml os st st1 full Hfull run.
  split; [| split; [| split]].
  - intros ->. simpl in Hfull. unfold ret in Hfull.
    inversion Hfull. auto.
  - intros ->. simpl in Hfull. unfold bind in Hfull.
    destruct (get_relevant_context C prompt st) as [[context | e] st0];
      [| discriminate].
    unfold ret in Hfull. inversion Hfull; subst.
    exists context. split; reflexivity.
  - intros Hfalse. unfold run. rewrite answer_question_unfold, Hfull.
    apply plain_answer_first_call_falsy. exact Hfalse.
  - intros field fields ->. unfold run.
    rewrite answer_question_unfold, Hfull, answer_prompt_structured.
    split.
    + intros rendering Hr.
      exact (structured_first_call full (field :: fields) ml st1 rendering Hr).
    + intros e He.
      rewrite (generate_structured_output_dumps_fault C full (field :: fields)
                 ml st1 e He).
      reflexivity.
Qed.

End MoreCases.

(** ** Runs on concrete collaborators: chunks, batches and prompts *)

(** Three sentences, none empty, one chunk, not empty. *)
Lemma split_document_no_empty_chunk_witness :
  Forall (fun chunk => chunk <> EmptyString)
    (split_document Toy.collaborators (self Toy.fresh) "Aa. Bb. Cc dd.").
Proof.
  apply (split_document_no_empty_chunk Toy.collaborators (self Toy.fresh)
           "Aa. Bb. Cc dd.").
  vm_compute. repeat (constructor; [discriminate |]). constructor.
Defined.

(** Four documents of one sentence each: four chunks, stored as they are. *)
Lemma one_sentence_documents_one_chunk_each_witness :
  flat_map (split_document Toy.collaborators (self Toy.fresh))
    Toy.four_documents = ["A."; "B."; "C."; "D."] /\
  rag_data (self (Toy.stocked Toy.collaborators Toy.four_documents)) =
  ["A."; "B."; "C."; "D."].
Proof.
  destruct (one_sentence_documents_one_chunk_each Toy.collaborators
              Toy.four_documents Toy.fresh) as (Hchunks & _ & Hstore).
  - repeat (constructor; [eexists; reflexivity |]). constructor.
  - split; [exact Hchunks |].
    apply (Hstore (Toy.stocked Toy.collaborators Toy.four_documents)).
    vm_compute. reflexivity.
Defined.

(** Four documents, one tokenizer call, one encoder call, one report. *)
Lemma add_rag_data_embeds_one_batch_witness :
  exists inputs,
    calls (Toy.stocked Toy.collaborators Toy.four_documents) =
    [TokenizerCall ["A."; "B."; "C."; "D."] true; Encoder inputs;
     PrintAdded 4 4 4].
Proof.
  destruct (add_rag_data_embeds_one_batch Toy.collaborators Toy.four_documents
              false Toy.fresh
              (Toy.stocked Toy.collaborators Toy.four_documents))
    as (texts & inputs & earlier & Hdata & Hcalls & Hearlier).
  - vm_compute. reflexivity.
  - exists inputs. rewrite Hcalls, (Hearlier eq_refl).
    assert (Ht : texts = ["A."; "B."; "C."; "D."]).
    { assert (H : rag_data
                    (self (Toy.stocked Toy.collaborators Toy.four_documents))
                  = ["A."; "B."; "C."; "D."]) by (vm_compute; reflexivity).
      rewrite Hdata in H. exact H. }
    subst texts. reflexivity.
Defined.

(** A structured question with retrieval: the context, the question,
    "Answer:", and then the JSON instruction; and a structure holding the
    type [str], for which no call follows the retrieval. *)
Lemma answer_question_prompt_witness :
  let C := Toy.collaborators in
  let st := Toy.stocked C Toy.four_documents in
  let structure := [("name", PJson (JStr "string"))] in
  let refused := [("name", PObject "<class 'str'>")] in
  exists st1,
    assemble_prompt C "B?" true st = (Ok (context_prompt "D. C. B." "B?"), st1)
    /\
    (exists rest,
        calls (snd (answer_question C "B?" true 200 (Some structure) st)) =
        calls st1 ++
        TokenizerCall
          [structure_prompt (context_prompt "D. C. B." "B?") "{}"] false
        :: rest) /\
    calls (snd (answer_question C "B?" true 200 (Some refused) st)) =
    calls st1.
Proof.
  cbv zeta.
  exists (snd (assemble_prompt Toy.collaborators "B?" true
                 (Toy.stocked Toy.collaborators Toy.four_documents))).
  assert (Ha : assemble_prompt Toy.collaborators "B?" true
                 (Toy.stocked Toy.collaborators Toy.four_documents) =
               (Ok (context_prompt "D. C. B." "B?"),
                snd (assemble_prompt Toy.collaborators "B?" true
                       (Toy.stocked Toy.collaborators Toy.four_documents))))
    by (vm_compute; reflexivity).
  split; [exact Ha |]. split.
  - destruct (answer_question_prompt Toy.collaborators "B?" true 200
                (Some [("name", PJson (JStr "string"))]) _ _ _ Ha)
      as (_ & _ & _ & Hstructured).
    destruct (Hstructured _ _ eq_refl) as (Hrendered & _).
    exact (Hrendered "{}" eq_refl).
  - destruct (answer_question_prompt Toy.collaborators "B?" true 200
                (Some [("name", PObject "<class 'str'>")]) _ _ _ Ha)
      as (_ & _ & _ & Hstructured).
    destruct (Hstructured _ _ eq_refl) as (_ & Hrefused).
    exact (Hrefused
             (mkExn TypeError "Object of type type is not JSON serializable")
             eq_refl).
Defined.
